(** * Smart router core: circuit breaker, telemetry, cost estimator,
    routing policy and dispatcher.

    Shallow embedding of
    - [src/core/circuitBreaker.ts]  (class CircuitBreaker)
    - [src/core/telemetry.ts]       (class Telemetry)
    - [src/core/costs.ts]           (class CostEstimator)
    - [src/core/policy.ts]          (RoutingPolicy.select)
    - [src/core/router.ts]          (Router.useModelWithInfo)

    Conventions.
    - JavaScript numbers are modelled as exact rationals [Q]; times and
      latencies (results of [Date.now()]) as [Z].
    - A JS [Map<string, _>] keyed by [`${provider}::${modelType}`] is a
      [gmap string _] keyed by the same concatenation.
    - [Date.now()] is an explicit [now] argument; [Math.random()] draws are
      explicit arguments (functions of the candidate position).
    - Optional fields ([x?: T]) are [option T]; JS truthiness of an optional
      number is [truthyQ]. *)

From Stdlib Require Import QArith Qround Qminmax Lqa ZArith Lia Sorted Permutation.
From stdpp Require Import base gmap strings list fin_maps.

Open Scope Z_scope.

(** ** Helpers for JavaScript values *)

(** [if (x)] for an optional number: [undefined] and [0] are falsy. *)
Definition truthyQ (o : option Q) : bool :=
  match o with
  | Some q => negb (Qeq_bool q 0)
  | None => false
  end.

(** [if (s)] for an optional string: [undefined] and [""] are falsy. *)
Definition truthyS (o : option string) : bool :=
  match o with
  | Some s => negb (String.eqb s "")
  | None => false
  end.

(** [`${provider}::${modelType}`] *)
Definition key (provider modelType : string) : string :=
  String.append provider (String.append "::" modelType).

(** ** CircuitBreaker (src/core/circuitBreaker.ts) *)
Module Circuit.

Inductive State := Closed | Open | HalfOpen.

Definition State_eqb (a b : State) : bool :=
  match a, b with
  | Closed, Closed | Open, Open | HalfOpen, HalfOpen => true
  | _, _ => false
  end.

Record Entry := mkEntry {
  state : State;
  consecutiveFailures : Z;
  openedAt : option Z
}.

Record CircuitOptions := mkCircuitOptions {
  failureThreshold : Z;
  coolOffMs : Z
}.

(** [e.openedAt && ...]: an [openedAt] of [0] is falsy. *)
Definition openedAt_truthy (o : option Z) : option Z :=
  match o with
  | Some t => if Z.eqb t 0 then None else Some t
  | None => None
  end.

(** [isOpen(provider, modelType)]: returns the answer and the updated map
    (the open -> half-open promotion is a side effect of the query). *)
Definition isOpen (o : CircuitOptions) (now : Z) (m : gmap string Entry)
    (provider modelType : string) : bool * gmap string Entry :=
  let k := key provider modelType in
  match m !! k with
  | None => (false, m)
  | Some e =>
      match state e with
      | Open =>
          match openedAt_truthy (openedAt e) with
          | Some t =>
              if Z.leb (coolOffMs o) (now - t) then
                (false, <[k := mkEntry HalfOpen (consecutiveFailures e) (openedAt e)]> m)
              else (true, m)
          | None => (true, m)
          end
      | _ => (false, m)
      end
  end.

Definition freshEntry : Entry := mkEntry Closed 0 None.

(** [onSuccess(provider, modelType)] *)
Definition onSuccess (m : gmap string Entry) (provider modelType : string)
    : gmap string Entry :=
  <[key provider modelType := mkEntry Closed 0 None]> m.

(** [onFailure(provider, modelType)]; [now] is [Date.now()]. *)
Definition onFailure (o : CircuitOptions) (now : Z) (m : gmap string Entry)
    (provider modelType : string) : gmap string Entry :=
  let k := key provider modelType in
  let e := default freshEntry (m !! k) in
  let cf := consecutiveFailures e + 1 in
  let e' := if Z.leb (failureThreshold o) cf
            then mkEntry Open cf (Some now)
            else mkEntry (state e) cf (openedAt e) in
  <[k := e']> m.

(** The operations of the breaker, for reachability. *)
Inductive Op :=
  | OpIsOpen (now : Z) (provider modelType : string)
  | OpSuccess (provider modelType : string)
  | OpFailure (now : Z) (provider modelType : string).

Definition step (o : CircuitOptions) (m : gmap string Entry) (op : Op)
    : gmap string Entry :=
  match op with
  | OpIsOpen now p t => snd (isOpen o now m p t)
  | OpSuccess p t => onSuccess m p t
  | OpFailure now p t => onFailure o now m p t
  end.

Definition run (o : CircuitOptions) (m : gmap string Entry) (ops : list Op)
    : gmap string Entry :=
  fold_left (step o) ops m.

(** [n] calls of [onFailure], the [i]-th at time [ts i]. *)
Fixpoint failures (o : CircuitOptions) (ts : nat -> Z) (n : nat)
    (m : gmap string Entry) (p t : string) : gmap string Entry :=
  match n with
  | O => m
  | S n' => onFailure o (ts n') (failures o ts n' m p t) p t
  end.

(** [reset(provider, modelType)] *)
Definition reset (m : gmap string Entry) (provider modelType : string)
    : gmap string Entry :=
  delete (key provider modelType) m.

(** [clearAll()] *)
Definition clearAll : gmap string Entry := ∅.

(** Every public method of the breaker; [now] is the [Date.now()] it reads. *)
Inductive Call :=
  | CIsOpen (now : Z) (provider modelType : string)
  | CSuccess (provider modelType : string)
  | CFailure (now : Z) (provider modelType : string)
  | CReset (provider modelType : string)
  | CClearAll.

Definition exec (o : CircuitOptions) (m : gmap string Entry) (c : Call)
    : gmap string Entry :=
  match c with
  | CIsOpen now p t => snd (isOpen o now m p t)
  | CSuccess p t => onSuccess m p t
  | CFailure now p t => onFailure o now m p t
  | CReset p t => reset m p t
  | CClearAll => clearAll
  end.

(** The map after a sequence of calls on a new breaker. *)
Definition exec_all (o : CircuitOptions) (cs : list Call) : gmap string Entry :=
  fold_left (exec o) cs ∅.

End Circuit.

(** ** Telemetry (src/core/telemetry.ts) *)
Module Telemetry.

Inductive Outcome := Success | Failure | Timeout.

Definition Outcome_eqb (a b : Outcome) : bool :=
  match a, b with
  | Success, Success | Failure, Failure | Timeout, Timeout => true
  | _, _ => false
  end.

Record TelemetryRecord := mkRecord {
  provider : string;
  modelType : string;
  latencyMs : Z;
  timestamp : Z;
  outcome : Outcome
}.

Record TelemetryStats := mkStats {
  count : Z;
  success : Z;
  failure : Z;
  timeout : Z;
  p50Latency : option Z;
  p95Latency : option Z
}.

(** [record(rec)]: push, then [arr.splice(0, arr.length - windowSize)]
    when the array is longer than the window. *)
Definition record (windowSize : Z) (store : gmap string (list TelemetryRecord))
    (rec : TelemetryRecord) : gmap string (list TelemetryRecord) :=
  let k := key (provider rec) (modelType rec) in
  let arr := default [] (store !! k) ++ [rec] in
  let arr' := if Z.ltb windowSize (Z.of_nat (length arr))
              then drop (Z.to_nat (Z.of_nat (length arr) - windowSize)) arr
              else arr in
  <[k := arr']> store.

(** [arr.map(a => a.latencyMs).sort((a, b) => a - b)]: ascending sort of
    numbers (stable insertion sort; on numbers every correct sort agrees). *)
Fixpoint insert_asc (x : Z) (l : list Z) : list Z :=
  match l with
  | [] => [x]
  | y :: ys => if Z.ltb y x then y :: insert_asc x ys else x :: y :: ys
  end.

Fixpoint sort_asc (l : list Z) : list Z :=
  match l with
  | [] => []
  | x :: xs => insert_asc x (sort_asc xs)
  end.

(** [percentile(sortedLatencies, p)] *)
Definition percentile (sorted : list Z) (p : Q) : option Z :=
  match sorted with
  | [] => None
  | _ =>
      let n := Z.of_nat (length sorted) in
      let idx := Z.min (n - 1) (Z.max 0 (Qfloor (p * inject_Z (n - 1)))) in
      sorted !! Z.to_nat idx
  end.

Definition count_outcome (o : Outcome) (arr : list TelemetryRecord) : Z :=
  Z.of_nat (length (filter (fun a => Outcome_eqb (outcome a) o = true) arr)).

(** [getStats(provider, modelType)] *)
Definition getStats (store : gmap string (list TelemetryRecord))
    (prov mt : string) : TelemetryStats :=
  let arr := default [] (store !! key prov mt) in
  let n := Z.of_nat (length arr) in
  if Z.eqb n 0 then mkStats 0 0 0 0 None None
  else
    let latencies := sort_asc (map latencyMs arr) in
    mkStats n (count_outcome Success arr) (count_outcome Failure arr)
      (count_outcome Timeout arr)
      (percentile latencies (1 # 2)) (percentile latencies (95 # 100)).

End Telemetry.

(** ** CostEstimator (src/core/costs.ts) *)
Module Costs.

Open Scope Q_scope.

(** [a < b] on numbers. *)
Definition Qltb (a b : Q) : bool := negb (Qle_bool b a).

Record ModelCosts := mkModelCosts {
  input : Q;   (* per 1K tokens *)
  output : Q   (* per 1K tokens *)
}.

Record CostEstimateParams := mkParams {
  promptChars : Q;
  expectedOutputTokens : option Q;
  simulatedModelName : string;
  charsPerToken : option Q;
  requestFixedFeeUSD : option Q;
  discountFactor : option Q
}.

Record CostEstimate := mkEstimate {
  inputTokens : Z;
  outputTokens : Q;
  inputCostUSD : Q;
  outputCostUSD : Q;
  fixedFeeUSD : Q;
  totalUSD : Q;
  ce_simulatedModelName : string
}.

(** The price book ([costs.json]), a JS object used as a map. *)
Abbreviation PriceBook := (gmap string ModelCosts).

(** [estimateTokens(chars, charsPerToken)] *)
Definition estimateTokens (chars charsPerToken : Q) : Z :=
  Qceiling (chars / charsPerToken).

(** [this.costs[simulatedModelName] || this.costs.default]; reading a field
    of the missing default entry throws, modelled as [None]. *)
Definition getModelCosts (book : PriceBook) (name : string) : option ModelCosts :=
  match book !! name with
  | Some c => Some c
  | None => book !! "default"
  end.

(** [estimateCost(params)] *)
Definition estimateCost (book : PriceBook) (p : CostEstimateParams)
    : option CostEstimate :=
  let cpt := default 4 (charsPerToken p) in
  let fee := default 0 (requestFixedFeeUSD p) in
  let disc := default 1 (discountFactor p) in
  let inTok := estimateTokens (promptChars p) cpt in
  let fallback := inject_Z (Z.max 1 (Qceiling (inject_Z inTok * (2 # 10)))) in
  let outTok := match expectedOutputTokens p with
                | Some x => if Qltb 0 x then x else fallback
                | None => fallback
                end in
  match getModelCosts book (simulatedModelName p) with
  | None => None
  | Some mc =>
      let inCost := (inject_Z inTok / 1000) * input mc in
      let outCost := (outTok / 1000) * output mc in
      let total := (inCost + outCost + fee) * disc in
      Some (mkEstimate inTok outTok (inCost * disc) (outCost * disc)
              (fee * disc) total (simulatedModelName p))
  end.

(** [estimateCostWithVariance(params)]; [r] is the [Math.random()] draw. *)
Definition estimateCostWithVariance (book : PriceBook) (p : CostEstimateParams)
    (r : Q) : option CostEstimate :=
  let varianceFactor := 1 + (r - (1 # 2)) * (1 # 10) in
  match estimateCost book p with
  | None => None
  | Some b =>
      Some (mkEstimate (inputTokens b) (outputTokens b)
              (inputCostUSD b * varianceFactor) (outputCostUSD b * varianceFactor)
              (fixedFeeUSD b) (totalUSD b * varianceFactor)
              (ce_simulatedModelName b))
  end.

End Costs.

(** ** RoutingPolicy (src/core/policy.ts) *)
Module Policy.

Import Costs Circuit Telemetry.
Open Scope Q_scope.

Record CostCapabilities := mkCostCaps {
  cc_simulatedModelName : option string;
  tokenCharsPerToken : option Q;
  cc_requestFixedFeeUSD : option Q;
  cc_discountFactor : option Q
}.

Record Capabilities := mkCaps {
  typicalLatencyMs : option Q;
  jsonReliabilityScore : option Q;
  cost : option CostCapabilities
}.

(** A registration; [rid] is the identity of the JS object (the dispatcher
    finds scored entries with [===]). *)
Record RegisteredProvider := mkProvider {
  rid : nat;
  rp_modelType : string;
  provider : string;
  priority : option Q;
  capabilities : option Capabilities
}.

Record PolicyOptions := mkOptions {
  promptLength : option Q;
  hasSchema : option bool;
  promptLengthThreshold : option Q;
  jsonBiasWeight : option Q;
  latencyWeight : option Q;
  failurePenalty : option Q;
  explorationEpsilon : option Q;
  costWeight : option Q;
  po_expectedOutputTokens : option Q;
  sessionBudget : option Q;
  sessionSpent : option Q
}.

Record ScoredStats := mkScoredStats {
  ss_p95Latency : option Z;
  successRatio : option Q;
  failureRatio : Q
}.

Record ScoredProvider := mkScored {
  sp_provider : RegisteredProvider;
  score : Q;
  stats : ScoredStats;
  costEstimate : option CostEstimate
}.

Definition emptyCaps : Capabilities := mkCaps None None None.

(** Values of one [select] call computed before the loop. *)
Record Prelude := mkPrelude {
  pl_promptLength : Q;
  pl_hasSchema : bool;
  pl_jsonBiasWeight : Q;
  pl_latencyWeight : Q;
  pl_failurePenalty : Q;
  pl_explorationEpsilon : Q;
  pl_expectedOutputTokens : option Q;
  pl_sessionBudget : option Q;
  pl_sessionSpent : Q;
  pl_isShort : bool;
  pl_effectiveCostWeight : Q
}.

Definition prelude (o : PolicyOptions) : Prelude :=
  let pl := default 0 (promptLength o) in
  let thr := default 600 (promptLengthThreshold o) in
  let cw := default 1 (costWeight o) in
  let spent := default 0 (sessionSpent o) in
  let isShort := if Qltb 0 pl then Qltb pl thr else false in
  let ecw :=
    match sessionBudget o with
    | Some b =>
        if truthyQ (Some b) && Qltb 0 spent then
          if Qltb (8 # 10) (spent / b) then cw * 2 else cw
        else cw
    | None => cw
    end in
  mkPrelude pl (default false (hasSchema o)) (default 1 (jsonBiasWeight o))
    (default (1 # 1000) (latencyWeight o)) (default 2 (failurePenalty o))
    (default (1 # 100) (explorationEpsilon o)) (po_expectedOutputTokens o)
    (sessionBudget o) spent isShort ecw.

(** The cost block of the loop body: the score after the base priority and
    the cost penalty, with the estimate; [None] is the [continue] of the
    hard budget ceiling. [rv] is the [Math.random()] draw of the cost
    variance. *)
Definition cost_part (book : PriceBook) (pre : Prelude) (p : RegisteredProvider)
    (rv : Q) : option (Q * option CostEstimate) :=
  let caps := default emptyCaps (capabilities p) in
  let score0 := default 0 (priority p) in
  match cost caps with
  | Some cc =>
      if truthyS (cc_simulatedModelName cc) && Qltb 0 (pl_promptLength pre) then
        let ce := estimateCostWithVariance book
                    (mkParams (pl_promptLength pre) (pl_expectedOutputTokens pre)
                       (default "" (cc_simulatedModelName cc))
                       (tokenCharsPerToken cc) (cc_requestFixedFeeUSD cc)
                       (cc_discountFactor cc)) rv in
        match ce with
        | None => None  (* the estimator throws *)
        | Some c =>
            let s := score0 - pl_effectiveCostWeight pre * totalUSD c in
            if truthyQ (pl_sessionBudget pre) &&
               Qltb (default 0 (pl_sessionBudget pre) - pl_sessionSpent pre) (totalUSD c)
            then None
            else Some (s, Some c)
        end
      else Some (score0, None)
  | None => Some (score0, None)
  end.

(** The body of the loop for a candidate whose circuit is not open:
    [None] is the [continue] of the hard budget ceiling. [rv] and [rj] are
    the [Math.random()] draws of the cost variance and of the jitter. *)
Definition score_one (book : PriceBook) (stats : TelemetryStats) (pre : Prelude)
    (p : RegisteredProvider) (rv rj : Q) : option ScoredProvider :=
  let caps := default emptyCaps (capabilities p) in
  match cost_part book pre p rv with
  | None => None
  | Some (s1, ce) =>
      let s2 := match typicalLatencyMs caps with
                | Some tl => if pl_isShort pre then s1 + 1 / Qmax 1 tl else s1
                | None => s1
                end in
      let s3 := match jsonReliabilityScore caps with
                | Some j => if pl_hasSchema pre then s2 + pl_jsonBiasWeight pre * j else s2
                | None => s2
                end in
      let cnt := inject_Z (count stats) in
      let fr := if Z.ltb 0 (count stats)
                then inject_Z (failure stats + timeout stats) / cnt else 0 in
      let sr := if Z.ltb 0 (count stats)
                then Some (inject_Z (success stats) / cnt) else None in
      let p95 := p95Latency stats in
      let s4 := match p95 with
                | Some v => s3 - pl_latencyWeight pre * inject_Z v
                | None => s3
                end in
      let s5 := if Qltb 0 fr then s4 - pl_failurePenalty pre * fr else s4 in
      let s6 := s5 + rj * pl_explorationEpsilon pre in
      Some (mkScored p s6 (mkScoredStats p95 sr fr) ce)
  end.

(** The [for (const p of providers)] loop; [i] is the candidate position. *)
Fixpoint select_loop (book : PriceBook) (tel : gmap string (list TelemetryRecord))
    (co : CircuitOptions) (now : Z) (modelType : string) (pre : Prelude)
    (rv rj : nat -> Q) (i : nat) (ps : list RegisteredProvider)
    (cb : gmap string Entry) : list ScoredProvider * gmap string Entry :=
  match ps with
  | [] => ([], cb)
  | p :: ps' =>
      let '(op, cb1) := isOpen co now cb (provider p) modelType in
      if op then select_loop book tel co now modelType pre rv rj (S i) ps' cb1
      else
        let r := score_one book (getStats tel (provider p) modelType) pre p (rv i) (rj i) in
        let '(rest, cb2) := select_loop book tel co now modelType pre rv rj (S i) ps' cb1 in
        (match r with Some s => s :: rest | None => rest end, cb2)
  end.

(** [scored.sort((a, b) => b.score - a.score)]: stable, descending. *)
Fixpoint insert_desc (x : ScoredProvider) (l : list ScoredProvider) : list ScoredProvider :=
  match l with
  | [] => [x]
  | y :: ys => if Qle_bool (score y) (score x) then x :: y :: ys
               else y :: insert_desc x ys
  end.

Fixpoint sort_desc (l : list ScoredProvider) : list ScoredProvider :=
  match l with
  | [] => []
  | x :: xs => insert_desc x (sort_desc xs)
  end.

(** [select(modelType, providers, options)]: the ranked list and the
    circuit map after the [isOpen] queries. *)
Definition select (book : PriceBook) (tel : gmap string (list TelemetryRecord))
    (co : CircuitOptions) (now : Z) (cb : gmap string Entry) (modelType : string)
    (providers : list RegisteredProvider) (o : PolicyOptions) (rv rj : nat -> Q)
    : list ScoredProvider * gmap string Entry :=
  let '(scored, cb') := select_loop book tel co now modelType (prelude o) rv rj 0 providers cb in
  (sort_desc scored, cb').

End Policy.

(** ** Router (src/core/router.ts) *)
Module Router.

Import Costs Circuit Telemetry Policy.
Open Scope Q_scope.

(** Construction parameters, after the defaults of the constructor
    ([maxRetries] is already [Math.max(0, opts.maxRetries ?? 2)]). *)
Record RouterConfig := mkConfig {
  telemetryWindow : Z;
  circuitOptions : CircuitOptions;
  maxRetries : Z;
  r_sessionBudget : option Q
}.

(** The mutable fields of a [Router]. *)
Record RouterState := mkState {
  telemetry : gmap string (list TelemetryRecord);
  circuit : gmap string Entry;
  r_sessionSpent : Q
}.

(** The values a request parameter field can hold. *)
Inductive JsVal :=
  | JStr (s : string)
  | JNum (q : Q)
  | JBool (b : bool)
  | JObj.

Definition truthyV (o : option JsVal) : bool :=
  match o with
  | Some (JStr s) => negb (String.eqb s "")
  | Some (JNum q) => negb (Qeq_bool q 0)
  | Some (JBool b) => b
  | Some JObj => true
  | None => false
  end.

(** The fields of [params] the router reads (all others pass through). *)
Record Params := mkRequest {
  prompt : option JsVal;
  text : option JsVal;
  schema : option JsVal
}.

(** What the awaited [withTimeout(rp.handler(...))] yields: a value, or an
    error ([isTimeout] is the [TimeoutError]/[/timeout/i] test of the
    catch block); [latency] is [Date.now() - start], [at] is [Date.now()]
    after the call. *)
Inductive HandlerResult :=
  | HOk (value : nat) (latency : Z) (at_ : Z)
  | HErr (isTimeout : bool) (latency : Z) (at_ : Z).

Record DispatchResult := mkResult {
  result : nat;
  res_provider : string;
  res_costEstimate : option CostEstimate
}.

Inductive DispatchError :=
  | NoProviders
  | AllUnavailable
  (** the rethrown last error ([None]: the generic error) with its
      [attemptedProviders] *)
  | Exhausted (lastError : option bool) (attemptedProviders : list string).

(** [typeof params?.prompt === 'string' ? params.prompt.length : 0] *)
Definition derivedPromptLength (params : Params) : Q :=
  match prompt params with
  | Some (JStr s) => inject_Z (Z.of_nat (String.length s))
  | _ => 0
  end.

(** [{ ...policyOptions, promptLength, hasSchema, sessionBudget, sessionSpent }] *)
Definition rankOptions (cfg : RouterConfig) (st : RouterState) (params : Params)
    (o : PolicyOptions) : PolicyOptions :=
  mkOptions (Some (derivedPromptLength params)) (Some (truthyV (schema params)))
    (promptLengthThreshold o) (jsonBiasWeight o) (latencyWeight o)
    (failurePenalty o) (explorationEpsilon o) (costWeight o)
    (po_expectedOutputTokens o) (r_sessionBudget cfg) (Some (r_sessionSpent st)).

(** [scored.find(s => s.provider === rp)?.costEstimate] *)
Definition costOf (scored : list ScoredProvider) (rp : RegisteredProvider)
    : option CostEstimate :=
  match List.find (fun s => Nat.eqb (rid (sp_provider s)) (rid rp)) scored with
  | Some s => costEstimate s
  | None => None
  end.

(** The retry loop [for (const rp of ranked)]; [handle n rp] is the outcome
    of the [n]-th attempt, made on [rp]. Returns the success or the last
    error with the final [attempts]. *)
Fixpoint attempt_loop (cfg : RouterConfig) (modelType : string)
    (scored : list ScoredProvider) (handle : Z -> RegisteredProvider -> HandlerResult)
    (ranked : list RegisteredProvider) (attempts : Z) (lastError : option bool)
    (st : RouterState) : (DispatchResult + (option bool * Z)) * RouterState :=
  match ranked with
  | [] => (inr (lastError, attempts), st)
  | rp :: rest =>
      if Z.ltb (maxRetries cfg) attempts then (inr (lastError, attempts), st)
      else
        let attempts' := (attempts + 1)%Z in
        match handle attempts' rp with
        | HOk v lat t =>
            let tel := record (telemetryWindow cfg) (telemetry st)
                         (mkRecord (provider rp) modelType lat t Success) in
            let cb := onSuccess (circuit st) (provider rp) modelType in
            let ce := costOf scored rp in
            let spent := match ce with
                         | Some c => r_sessionSpent st + totalUSD c
                         | None => r_sessionSpent st
                         end in
            (inl (mkResult v (provider rp) ce), mkState tel cb spent)
        | HErr isT lat t =>
            let tel := record (telemetryWindow cfg) (telemetry st)
                         (mkRecord (provider rp) modelType lat t
                            (if isT then Timeout else Failure)) in
            let cb := onFailure (circuitOptions cfg) t (circuit st) (provider rp) modelType in
            attempt_loop cfg modelType scored handle rest attempts' (Some isT)
              (mkState tel cb (r_sessionSpent st))
        end
  end.

(** [providers.filter((p) => p.provider === providerHint)] when the hint
    is truthy. *)
Definition candidatesOf (providers : list RegisteredProvider)
    (providerHint : option string) : list RegisteredProvider :=
  match providerHint with
  | Some h => if truthyS (Some h)
              then filter (fun p => String.eqb (provider p) h = true) providers
              else providers
  | None => providers
  end.

(** [useModelWithInfo(modelType, params, policyOptions, providerHint)];
    [providers] is [globalRegistry.getProviders(modelType)], [now] the
    [Date.now()] of the ranking, [rv]/[rj] its random draws. *)
Definition useModelWithInfo (cfg : RouterConfig) (book : PriceBook)
    (providers : list RegisteredProvider) (modelType : string) (params : Params)
    (o : PolicyOptions) (providerHint : option string) (now : Z) (rv rj : nat -> Q)
    (handle : Z -> RegisteredProvider -> HandlerResult) (st : RouterState)
    : (DispatchResult + DispatchError) * RouterState :=
  match candidatesOf providers providerHint with
  | [] => (inr NoProviders, st)
  | _ =>
      let '(scored, cb) := select book (telemetry st) (circuitOptions cfg) now
                             (circuit st) modelType (candidatesOf providers providerHint)
                             (rankOptions cfg st params o) rv rj in
      let st1 := mkState (telemetry st) cb (r_sessionSpent st) in
      match scored with
      | [] => (inr AllUnavailable, st1)
      | _ =>
          let ranked := map sp_provider scored in
          match attempt_loop cfg modelType scored handle ranked 0 None st1 with
          | (inl r, st2) => (inl r, st2)
          | (inr (lastError, attempts), st2) =>
              (inr (Exhausted lastError
                      (map provider (take (Z.to_nat attempts) ranked))), st2)
          end
      end
  end.

End Router.

(** ** ModelRegistry (src/core/registry.ts) *)
Module Registry.

Import Policy.
Open Scope Q_scope.

(** [a.priority ?? 0] *)
Definition prio (r : RegisteredProvider) : Q := default 0 (priority r).

(** [providers.sort((a, b) => bp !== ap ? bp - ap : 0)]: the sort is
    stable, so it is the stable insertion sort by descending priority. *)
Fixpoint insert_prio (x : RegisteredProvider) (l : list RegisteredProvider)
    : list RegisteredProvider :=
  match l with
  | [] => [x]
  | y :: ys => if Qle_bool (prio y) (prio x) then x :: y :: ys else y :: insert_prio x ys
  end.

Fixpoint sort_prio (l : list RegisteredProvider) : list RegisteredProvider :=
  match l with
  | [] => []
  | x :: xs => insert_prio x (sort_prio xs)
  end.

(** The [modelTypeToProviders] map. *)
Abbreviation Reg := (gmap string (list RegisteredProvider)).

(** [registerModel(modelType, handler, provider, priority = 0, capabilities)];
    [hid] is the identity of the [handler] closure. *)
Definition registerModel (reg : Reg) (modelType : string) (hid : nat) (prov : string)
    (priority : option Q) (caps : option Capabilities) : Reg :=
  let k := modelType in
  let providers := default [] (reg !! k) in
  let registration := mkProvider hid k prov (Some (default 0 priority)) caps in
  <[k := sort_prio (providers ++ [registration])]> reg.

(** [getProviders(modelType)]: a copy of the list, [[]] when unknown. *)
Definition getProviders (reg : Reg) (modelType : string) : list RegisteredProvider :=
  default [] (reg !! modelType).

(** A [registerModel] call, and a sequence of them on an empty registry. *)
Record RegCall := mkRegCall {
  rc_modelType : string;
  rc_hid : nat;
  rc_provider : string;
  rc_priority : option Q;
  rc_capabilities : option Capabilities
}.

Definition registerCall (reg : Reg) (c : RegCall) : Reg :=
  registerModel reg (rc_modelType c) (rc_hid c) (rc_provider c) (rc_priority c)
    (rc_capabilities c).

Definition registerAll (cs : list RegCall) : Reg := fold_left registerCall cs ∅.

(** The registration a call pushes. *)
Definition registrationOf (c : RegCall) : RegisteredProvider :=
  mkProvider (rc_hid c) (rc_modelType c) (rc_provider c)
    (Some (default 0 (rc_priority c))) (rc_capabilities c).

End Registry.

(** * Properties *)

(** ** Circuit breaker *)
Module CircuitFacts.

Import Circuit.

(** The entry after [k] failures on a fresh key. *)
Definition entry_after (o : CircuitOptions) (ts : nat -> Z) (k : nat) : Entry :=
  if Z.leb (failureThreshold o) (Z.of_nat k)
  then mkEntry Open (Z.of_nat k) (Some (ts (pred k)))
  else mkEntry Closed (Z.of_nat k) None.

Lemma failures_fresh (o : CircuitOptions) (ts : nat -> Z) (m : gmap string Entry)
    (p t : string) (k : nat) :
  m !! key p t = None ->
  failures o ts k m p t !! key p t =
    match k with O => None | S _ => Some (entry_after o ts k) end.
Proof.
  intros Hm. induction k as [|k IH]; simpl; [exact Hm |].
  unfold onFailure. rewrite lookup_insert_eq, IH. f_equal.
  unfold entry_after. cbn [pred].
  assert (HS : Z.of_nat (S k) = Z.of_nat k + 1) by lia. rewrite HS.
  destruct k as [|k].
  - simpl. destruct (Z.leb (failureThreshold o) 1); reflexivity.
  - destruct (Z.leb (failureThreshold o) (Z.of_nat (S k))) eqn:E1;
      unfold default, id; cbn [consecutiveFailures state openedAt pred].
    + assert (E2 : Z.leb (failureThreshold o) (Z.of_nat (S k) + 1) = true)
        by (apply Z.leb_le; apply Z.leb_le in E1; lia).
      rewrite E2. reflexivity.
    + destruct (Z.leb (failureThreshold o) (Z.of_nat (S k) + 1)); reflexivity.
Qed.

(** Invariant of every reachable breaker map: an entry that is not closed
    has at least [failureThreshold] consecutive failures. *)
Definition inv (o : CircuitOptions) (m : gmap string Entry) : Prop :=
  forall k e, m !! k = Some e -> state e <> Closed ->
    failureThreshold o <= consecutiveFailures e.

Lemma inv_empty (o : CircuitOptions) : inv o ∅.
Proof. intros k e H. rewrite lookup_empty in H. discriminate. Qed.

Lemma inv_isOpen (o : CircuitOptions) (now : Z) (m : gmap string Entry) (p t : string) :
  inv o m -> inv o (snd (isOpen o now m p t)).
Proof.
  intros Hi. unfold isOpen.
  destruct (m !! key p t) as [e|] eqn:Hk; simpl; [|exact Hi].
  destruct (state e) eqn:Hs; simpl; try exact Hi.
  destruct (openedAt_truthy (openedAt e)); simpl; [|exact Hi].
  destruct (Z.leb (coolOffMs o) (now - z)); simpl; [|exact Hi].
  intros k e' Hk' Hne. destruct (decide (key p t = k)) as [<-|Hne'].
  - rewrite lookup_insert_eq in Hk'. injection Hk' as <-. simpl.
    apply (Hi _ _ Hk). rewrite Hs. discriminate.
  - rewrite lookup_insert_ne in Hk' by exact Hne'. exact (Hi _ _ Hk' Hne).
Qed.

Lemma inv_onSuccess (o : CircuitOptions) (m : gmap string Entry) (p t : string) :
  inv o m -> inv o (onSuccess m p t).
Proof.
  intros Hi k e Hk Hne. unfold onSuccess in Hk.
  destruct (decide (key p t = k)) as [<-|Hne'].
  - rewrite lookup_insert_eq in Hk. injection Hk as <-. simpl in Hne. congruence.
  - rewrite lookup_insert_ne in Hk by exact Hne'. exact (Hi _ _ Hk Hne).
Qed.

Lemma inv_onFailure (o : CircuitOptions) (now : Z) (m : gmap string Entry) (p t : string) :
  inv o m -> inv o (onFailure o now m p t).
Proof.
  intros Hi k e Hk Hne. unfold onFailure in Hk.
  destruct (decide (key p t = k)) as [<-|Hne'].
  - rewrite lookup_insert_eq in Hk. injection Hk as <-.
    destruct (Z.leb (failureThreshold o)
               (consecutiveFailures (default freshEntry (m !! key p t)) + 1)) eqn:E;
      simpl in *.
    + apply Z.leb_le in E. exact E.
    + destruct (m !! key p t) as [e0|] eqn:H0; simpl in *; [|congruence].
      pose proof (Hi _ _ H0 Hne). lia.
  - rewrite lookup_insert_ne in Hk by exact Hne'. exact (Hi _ _ Hk Hne).
Qed.

Lemma inv_run (o : CircuitOptions) (ops : list Op) :
  forall m : gmap string Entry, inv o m -> inv o (run o m ops).
Proof.
  induction ops as [|op ops IH]; intros m Hi; simpl; [exact Hi |].
  apply IH. destruct op; simpl.
  - apply inv_isOpen, Hi.
  - apply inv_onSuccess, Hi.
  - apply inv_onFailure, Hi.
Qed.

(** Claim C3. On a fresh (provider, capability) key with [failureThreshold]
    [n >= 1]: after [n] consecutive [onFailure] calls, [isOpen] answers true
    while the cool-off has not elapsed since the breaker opened (at the time
    of the [n]-th failure); once [coolOffMs] has elapsed the next [isOpen]
    answers false and leaves the entry half-open; a following [onSuccess]
    stores the closed entry with [consecutiveFailures = 0] and no
    [openedAt]. ([Date.now()] is positive, so [openedAt] is truthy.) *)
Theorem breaker_open_halfopen_close (o : CircuitOptions) (m : gmap string Entry)
    (p t : string) (ts : nat -> Z) (n : nat) (now1 now2 : Z) :
  m !! key p t = None ->
  (1 <= n)%nat ->
  failureThreshold o = Z.of_nat n ->
  0 < ts (pred n) ->
  now1 - ts (pred n) < coolOffMs o ->
  coolOffMs o <= now2 - ts (pred n) ->
  let m1 := failures o ts n m p t in
  let m2 := snd (isOpen o now1 m1 p t) in
  let m3 := snd (isOpen o now2 m2 p t) in
  fst (isOpen o now1 m1 p t) = true /\
  fst (isOpen o now2 m2 p t) = false /\
  (exists e, m3 !! key p t = Some e /\ state e = HalfOpen) /\
  onSuccess m3 p t !! key p t = Some (mkEntry Closed 0 None).
Proof.
  intros Hm Hn Hthr Hts H1 H2 m1 m2 m3.
  destruct n as [|n']; [lia |]. cbn [pred] in *.
  assert (Hm1 : m1 !! key p t = Some (mkEntry Open (Z.of_nat (S n')) (Some (ts n')))).
  { unfold m1. rewrite (failures_fresh o ts m p t (S n') Hm). unfold entry_after.
    rewrite Hthr, Z.leb_refl. reflexivity. }
  assert (Htr : openedAt_truthy (Some (ts n')) = Some (ts n')).
  { unfold openedAt_truthy. destruct (Z.eqb_spec (ts n') 0); [lia | reflexivity]. }
  assert (Hq1 : isOpen o now1 m1 p t = (true, m1)).
  { unfold isOpen. rewrite Hm1. cbn [state openedAt]. rewrite Htr.
    destruct (Z.leb_spec (coolOffMs o) (now1 - ts n')); [lia | reflexivity]. }
  assert (Hm2 : m2 = m1) by (unfold m2; rewrite Hq1; reflexivity).
  assert (Hq2 : isOpen o now2 m2 p t =
    (false, <[key p t := mkEntry HalfOpen (Z.of_nat (S n')) (Some (ts n'))]> m1)).
  { rewrite Hm2. unfold isOpen. rewrite Hm1. cbn [state openedAt consecutiveFailures].
    rewrite Htr. destruct (Z.leb_spec (coolOffMs o) (now2 - ts n')); [reflexivity | lia]. }
  split; [rewrite Hq1; reflexivity |].
  split; [rewrite Hq2; reflexivity |].
  assert (Hm3 : m3 = <[key p t := mkEntry HalfOpen (Z.of_nat (S n')) (Some (ts n'))]> m1)
    by (unfold m3; rewrite Hq2; reflexivity).
  split.
  - exists (mkEntry HalfOpen (Z.of_nat (S n')) (Some (ts n'))).
    rewrite Hm3, lookup_insert_eq. split; reflexivity.
  - unfold onSuccess. apply lookup_insert_eq.
Qed.

(** Claim C4. In every breaker map reachable from the empty one, an entry
    in the half-open state already has [consecutiveFailures >=
    failureThreshold], and a single [onFailure] at time [now] puts it back
    in the open state with [openedAt = now]. *)
Theorem halfopen_failure_reopens (o : CircuitOptions) (ops : list Op)
    (p t : string) (now : Z) (e : Entry) :
  run o ∅ ops !! key p t = Some e ->
  state e = HalfOpen ->
  failureThreshold o <= consecutiveFailures e /\
  onFailure o now (run o ∅ ops) p t !! key p t =
    Some (mkEntry Open (consecutiveFailures e + 1) (Some now)).
Proof.
  intros He Hs.
  assert (Hge : failureThreshold o <= consecutiveFailures e).
  { apply (inv_run o ops ∅ (inv_empty o) (key p t) e He). rewrite Hs. discriminate. }
  split; [exact Hge |].
  unfold onFailure. rewrite lookup_insert_eq, He. cbn [default id].
  destruct (Z.leb_spec (failureThreshold o) (consecutiveFailures e + 1));
    [reflexivity | lia].
Qed.

(** The claims exercised on concrete inputs. *)
Definition wopts : CircuitOptions := mkCircuitOptions 3 60000.

Lemma breaker_open_halfopen_close_witness :
  fst (isOpen wopts 1010 (failures wopts (fun i => 1000 + Z.of_nat i) 3 ∅ "ollama" "TEXT_SMALL")
         "ollama" "TEXT_SMALL") = true.
Proof.
  apply (breaker_open_halfopen_close wopts ∅ "ollama" "TEXT_SMALL"
           (fun i => 1000 + Z.of_nat i) 3 1010 70000);
    [ apply lookup_empty | lia | reflexivity | simpl; lia | simpl; lia | simpl; lia ].
Defined.

Definition wops : list Op :=
  [OpFailure 5 "a" "T"; OpFailure 6 "a" "T"; OpFailure 7 "a" "T"; OpIsOpen 70000 "a" "T"].

Lemma halfopen_failure_reopens_witness :
  failureThreshold wopts <= 3 /\
  onFailure wopts 80000 (run wopts ∅ wops) "a" "T" !! key "a" "T" =
    Some (mkEntry Open 4 (Some 80000)).
Proof.
  apply (halfopen_failure_reopens wopts wops "a" "T" 80000 (mkEntry HalfOpen 3 (Some 7)));
    vm_compute; reflexivity.
Defined.

End CircuitFacts.

(** ** Telemetry *)
Module TelemetryFacts.

Import Telemetry.

Definition bounded (W : Z) (store : gmap string (list TelemetryRecord)) : Prop :=
  forall k arr, store !! k = Some arr -> Z.of_nat (length arr) <= W.

Lemma record_at_key (W : Z) (store : gmap string (list TelemetryRecord))
    (rec : TelemetryRecord) :
  let arr := default [] (store !! key (provider rec) (modelType rec)) ++ [rec] in
  record W store rec !! key (provider rec) (modelType rec) =
    Some (if Z.ltb W (Z.of_nat (length arr))
          then drop (Z.to_nat (Z.of_nat (length arr) - W)) arr else arr).
Proof. intros arr. unfold record. apply lookup_insert_eq. Qed.

Lemma record_bounded (W : Z) (store : gmap string (list TelemetryRecord))
    (rec : TelemetryRecord) :
  0 <= W -> bounded W store -> bounded W (record W store rec).
Proof.
  intros HW Hb k arr Hk. unfold record in Hk.
  destruct (decide (key (provider rec) (modelType rec) = k)) as [<-|Hne].
  - rewrite lookup_insert_eq in Hk. injection Hk as <-.
    destruct (Z.ltb_spec W (Z.of_nat (length (default [] (store !! key (provider rec) (modelType rec)) ++ [rec])))) as [Hlt|Hge].
    + rewrite length_drop. lia.
    + exact Hge.
  - rewrite lookup_insert_ne in Hk by exact Hne. exact (Hb _ _ Hk).
Qed.

Lemma records_bounded (W : Z) (recs : list TelemetryRecord) :
  forall store, 0 <= W -> bounded W store -> bounded W (fold_left (record W) recs store).
Proof.
  induction recs as [|r recs IH]; intros store HW Hb; simpl; [exact Hb |].
  apply IH; [exact HW |]. apply record_bounded; assumption.
Qed.

(** Claim C5. For a window [W >= 0] and any store within the window, every
    sequence of [record] calls keeps every key's ring within [W]
    records; and when an append makes a ring longer than [W], the ring
    becomes its last [W] records (the oldest ones are dropped from the
    head). *)
Theorem telemetry_ring_bounded (W : Z) (store : gmap string (list TelemetryRecord))
    (recs : list TelemetryRecord) :
  0 <= W -> bounded W store ->
  bounded W (fold_left (record W) recs store) /\
  (forall rec : TelemetryRecord,
     let arr := default [] (store !! key (provider rec) (modelType rec)) ++ [rec] in
     W < Z.of_nat (length arr) ->
     exists dropped kept,
       arr = dropped ++ kept /\ Z.of_nat (length kept) = W /\
       record W store rec !! key (provider rec) (modelType rec) = Some kept).
Proof.
  intros HW Hb. split; [apply records_bounded; assumption |].
  intros rec arr Hlt.
  exists (take (Z.to_nat (Z.of_nat (length arr) - W)) arr),
         (drop (Z.to_nat (Z.of_nat (length arr) - W)) arr).
  split; [symmetry; apply take_drop |].
  split; [rewrite length_drop; lia |].
  rewrite record_at_key. fold arr.
  destruct (Z.ltb_spec W (Z.of_nat (length arr))); [reflexivity | lia].
Qed.

(** Insertion sort: sorted permutation, determined by the multiset. *)
Lemma insert_asc_perm (x : Z) (l : list Z) : Permutation (insert_asc x l) (x :: l).
Proof.
  induction l as [|y ys IH]; simpl; [reflexivity |].
  destruct (Z.ltb y x); [| reflexivity].
  etransitivity; [apply perm_skip, IH | apply perm_swap].
Qed.

Lemma sort_asc_perm (l : list Z) : Permutation (sort_asc l) l.
Proof.
  induction l as [|x xs IH]; simpl; [reflexivity |].
  etransitivity; [apply insert_asc_perm | apply perm_skip, IH].
Qed.

Lemma insert_asc_sorted (x : Z) (l : list Z) :
  Sorted Z.le l -> Sorted Z.le (insert_asc x l).
Proof.
  induction 1 as [|y ys Hs IH Hhd]; simpl; [repeat constructor |].
  destruct (Z.ltb_spec y x) as [Hyx|Hxy].
  - constructor; [exact IH |].
    destruct ys as [|z zs]; simpl; [constructor; lia |].
    inversion Hhd; subst. destruct (Z.ltb z x); constructor; lia.
  - constructor; [constructor; assumption | constructor; lia].
Qed.

Lemma sort_asc_sorted (l : list Z) : Sorted Z.le (sort_asc l).
Proof.
  induction l as [|x xs IH]; simpl; [constructor |]. apply insert_asc_sorted, IH.
Qed.

Lemma sorted_perm_unique (l1 l2 : list Z) :
  Sorted Z.le l1 -> Sorted Z.le l2 -> Permutation l1 l2 -> l1 = l2.
Proof.
  intros H1 H2. apply Sorted_StronglySorted in H1; [| intros a b c; lia].
  apply Sorted_StronglySorted in H2; [| intros a b c; lia].
  revert l2 H2. induction H1 as [|a l1 Hs1 IH Hall1]; intros l2 H2 Hp.
  - symmetry. apply Permutation_nil, Hp.
  - destruct H2 as [|b l2 Hs2 Hall2].
    + apply Permutation_sym, Permutation_nil in Hp. discriminate.
    + assert (Hab : a = b).
      { assert (Ha : In a (b :: l2)) by (eapply Permutation_in; [exact Hp | left; reflexivity]).
        assert (Hb : In b (a :: l1))
          by (eapply Permutation_in; [apply Permutation_sym, Hp | left; reflexivity]).
        destruct Ha as [Ha|Ha]; [congruence |].
        destruct Hb as [Hb|Hb]; [congruence |].
        rewrite Forall_forall in Hall1, Hall2.
        pose proof (Hall1 b (proj2 (list_elem_of_In _ _) Hb)).
        pose proof (Hall2 a (proj2 (list_elem_of_In _ _) Ha)). lia. }
      subst b. f_equal. apply IH; [exact Hs2 |]. eapply Permutation_cons_inv, Hp.
Qed.

Lemma sort_asc_perm_eq (l1 l2 : list Z) :
  Permutation l1 l2 -> sort_asc l1 = sort_asc l2.
Proof.
  intros Hp. apply sorted_perm_unique; try apply sort_asc_sorted.
  rewrite sort_asc_perm, sort_asc_perm. exact Hp.
Qed.

(** The index of the [p]-th percentile in a window of [n] records. *)
Definition pct_index (n : Z) (p : Q) : nat :=
  Z.to_nat (Z.min (n - 1) (Z.max 0 (Qfloor (p * inject_Z (n - 1))))).

Definition tens : list Z := [10; 20; 30; 40; 50; 60; 70; 80; 90; 100].

Lemma pct_index_lt (n : Z) (p : Q) : 0 < n -> (pct_index n p < Z.to_nat n)%nat.
Proof. intros Hn. unfold pct_index. lia. Qed.

(** Claim C6. [getStats] sorts a copy of the window's latencies ascending
    and returns, for a non-empty window of [n] records, [p50Latency] and
    [p95Latency] equal to the element of the sorted latencies at index
    [clamp(floor(p * (n - 1)), 0, n - 1)] (an index within the window) for
    [p = 0.5] and [p = 0.95]; both are [null] for an empty window. For a
    window whose latencies are {10, 20, ..., 100}, p50 is in [40, 50] and
    p95 in [90, 100]. *)
Theorem getStats_percentiles (store : gmap string (list TelemetryRecord))
    (prov mt : string) :
  let arr := default [] (store !! key prov mt) in
  let lat := sort_asc (map latencyMs arr) in
  let n := Z.of_nat (length arr) in
  let st := getStats store prov mt in
  Sorted Z.le lat /\ Permutation lat (map latencyMs arr) /\
  (arr = [] -> p50Latency st = None /\ p95Latency st = None) /\
  (arr <> [] ->
     (pct_index n (1 # 2) < length arr)%nat /\ (pct_index n (95 # 100) < length arr)%nat /\
     p50Latency st = lat !! pct_index n (1 # 2) /\
     p95Latency st = lat !! pct_index n (95 # 100)) /\
  (Permutation (map latencyMs arr) tens ->
     exists a b, p50Latency st = Some a /\ 40 <= a <= 50 /\
                 p95Latency st = Some b /\ 90 <= b <= 100).
Proof.
  intros arr lat n st.
  assert (Hperm : Permutation lat (map latencyMs arr)) by apply sort_asc_perm.
  assert (Hlen : length lat = length arr)
    by (rewrite (Permutation_length Hperm), length_map; reflexivity).
  assert (Hne : arr <> [] ->
     (pct_index n (1 # 2) < length arr)%nat /\ (pct_index n (95 # 100) < length arr)%nat /\
     p50Latency st = lat !! pct_index n (1 # 2) /\
     p95Latency st = lat !! pct_index n (95 # 100)).
  { intros Ha. assert (Hn : 0 < n) by (unfold n; destruct arr; [congruence | simpl; lia]).
    pose proof (pct_index_lt n (1 # 2) Hn) as H1.
    pose proof (pct_index_lt n (95 # 100) Hn) as H2.
    unfold n in H1, H2 at 2. rewrite Nat2Z.id in H1, H2.
    split; [exact H1 |]. split; [exact H2 |].
    unfold st, getStats. fold arr.
    destruct (Z.eqb_spec (Z.of_nat (length arr)) 0) as [H0|_]; [unfold n in Hn; lia |].
    cbn [p50Latency p95Latency]. fold lat. unfold percentile.
    destruct lat as [|x xs] eqn:Hl; [simpl in Hlen; destruct arr; [congruence | discriminate] |].
    rewrite Hlen. split; reflexivity. }
  split; [apply sort_asc_sorted |]. split; [exact Hperm |].
  split.
  { intros Ha. unfold st, getStats. fold arr. rewrite Ha. split; reflexivity. }
  split; [exact Hne |].
  intros Ht.
  assert (Ha : arr <> []).
  { intros Ha. rewrite Ha in Ht. apply Permutation_nil in Ht. discriminate. }
  assert (Hl : lat = tens)
    by (unfold lat; rewrite (sort_asc_perm_eq _ _ Ht); reflexivity).
  assert (Hn : n = 10).
  { unfold n. apply Permutation_length in Ht. rewrite length_map in Ht. rewrite Ht. reflexivity. }
  destruct (Hne Ha) as (_ & _ & H50 & H95).
  rewrite Hl, Hn in H50, H95.
  assert (E50 : tens !! pct_index 10 (1 # 2) = Some 50) by (vm_compute; reflexivity).
  assert (E95 : tens !! pct_index 10 (95 # 100) = Some 90) by (vm_compute; reflexivity).
  rewrite E50 in H50. rewrite E95 in H95.
  exists 50, 90. rewrite H50, H95.
  split; [reflexivity | split; [lia | split; [reflexivity | lia]]].
Qed.

(** The claims exercised on a concrete window: the test of [telemetry.test.js]
    (latencies 10, 20, ..., 100 in a window of 10), and twelve records in
    that window. *)
Definition wrec (i : nat) : TelemetryRecord :=
  mkRecord "p" "T" (10 * Z.of_nat i) 0 (if Nat.eqb (Nat.modulo i 3) 0 then Failure else Success).

Definition wstore (k : nat) : gmap string (list TelemetryRecord) :=
  fold_left (record 10) (map wrec (seq 1 k)) ∅.

Lemma telemetry_ring_bounded_witness : bounded 10 (wstore 12).
Proof.
  destruct (telemetry_ring_bounded 10 ∅ (map wrec (seq 1 12))) as [H _].
  - lia.
  - intros k arr Hk. rewrite lookup_empty in Hk. discriminate.
  - exact H.
Defined.

Lemma getStats_percentiles_witness :
  exists a b, p50Latency (getStats (wstore 10) "p" "T") = Some a /\ 40 <= a <= 50 /\
              p95Latency (getStats (wstore 10) "p" "T") = Some b /\ 90 <= b <= 100.
Proof.
  destruct (getStats_percentiles (wstore 10) "p" "T") as (_ & _ & _ & _ & H).
  apply H. vm_compute. apply Permutation_refl.
Defined.

End TelemetryFacts.

(** ** Cost estimator *)
Module CostFacts.

Import Costs.
Open Scope Q_scope.

(** The price of the example of the spec, under a name of its own; the
    [default] entry is another price. *)
Definition wbook : PriceBook :=
  {[ "gpt-4o-mini" := mkModelCosts (15 # 100000) (6 # 10000);
     "default" := mkModelCosts (1 # 1000) (2 # 1000) ]}.

Definition wparams : CostEstimateParams :=
  mkParams 400 (Some 100) "gpt-4o-mini" (Some 4) None (Some 1).

(** Claim C7. [estimateCost] returns [inputTokens = ceil(promptChars /
    charsPerToken)] (default 4); [outputTokens = expectedOutputTokens] when
    that is provided and positive, otherwise [max(1, ceil(inputTokens *
    0.2))]; [totalUSD = (inputCostUSD + outputCostUSD + fixedFeeUSD) *
    discountFactor] with the returned input, output and fixed-fee components
    each multiplied by [discountFactor]; a model name absent from the price
    book uses the ["default"] entry. With [charsPerToken = 4],
    [promptChars = 400], [expectedOutputTokens = 100], [discountFactor = 1]
    and price [{input: 0.00015, output: 0.0006}]: [inputTokens = 100],
    [outputTokens = 100], [totalUSD = 0.000075]. *)
Theorem estimateCost_contract (book : PriceBook) (p : CostEstimateParams) :
  let cpt := default 4 (charsPerToken p) in
  let fee := default 0 (requestFixedFeeUSD p) in
  let disc := default 1 (discountFactor p) in
  (book !! simulatedModelName p = None ->
     getModelCosts book (simulatedModelName p) = book !! "default") /\
  (forall mc, getModelCosts book (simulatedModelName p) = Some mc ->
     exists ce, estimateCost book p = Some ce /\
       inputTokens ce = Qceiling (promptChars p / cpt) /\
       (forall x, expectedOutputTokens p = Some x -> 0 < x -> outputTokens ce = x) /\
       ((forall x, expectedOutputTokens p = Some x -> x <= 0) ->
          outputTokens ce = inject_Z (Z.max 1 (Qceiling (inject_Z (inputTokens ce) * (2 # 10))))) /\
       let inCost := (inject_Z (inputTokens ce) / 1000) * input mc in
       let outCost := (outputTokens ce / 1000) * output mc in
       totalUSD ce = (inCost + outCost + fee) * disc /\
       inputCostUSD ce = inCost * disc /\
       outputCostUSD ce = outCost * disc /\
       fixedFeeUSD ce = fee * disc) /\
  (exists ce, estimateCost wbook wparams = Some ce /\
     inputTokens ce = 100%Z /\ outputTokens ce == 100 /\ totalUSD ce == 75 # 1000000).
Proof.
  intros cpt fee disc. split; [|split].
  - intros H. unfold getModelCosts. rewrite H. reflexivity.
  - intros mc Hmc. unfold estimateCost. rewrite Hmc.
    eexists. split; [reflexivity |]. cbn [inputTokens outputTokens totalUSD
      inputCostUSD outputCostUSD fixedFeeUSD].
    split; [reflexivity |]. split; [| split].
    + intros x Hx Hpos. rewrite Hx. unfold Qltb.
      destruct (Qle_bool x 0) eqn:E; [| reflexivity].
      apply Qle_bool_iff in E. exfalso. apply (Qlt_not_le _ _ Hpos E).
    + intros Hle. destruct (expectedOutputTokens p) as [x|] eqn:Hx; [| reflexivity].
      pose proof (Hle x eq_refl) as Hx0. unfold Qltb.
      assert (E : Qle_bool x 0 = true) by (apply Qle_bool_iff; exact Hx0).
      rewrite E. reflexivity.
    + repeat split; reflexivity.
  - eexists. split; [vm_compute; reflexivity |].
    split; [reflexivity |]. split; vm_compute; reflexivity.
Qed.

Lemma estimateCost_contract_witness :
  exists ce, estimateCost wbook wparams = Some ce /\
     inputTokens ce = 100%Z /\ outputTokens ce == 100 /\ totalUSD ce == 75 # 1000000.
Proof.
  destruct (estimateCost_contract wbook wparams) as (_ & _ & H). exact H.
Defined.

End CostFacts.

(** ** Routing policy *)
Module PolicyFacts.

Import Costs Circuit Telemetry Policy.
Open Scope Z_scope.

(** [m'] differs from [m] only by open -> half-open promotions of entries
    whose cool-off had elapsed at [now]. *)
Definition promoted (o : CircuitOptions) (now : Z) (m m' : gmap string Entry) : Prop :=
  forall k, m' !! k = m !! k \/
    exists e t0, m !! k = Some e /\ state e = Open /\
      openedAt_truthy (openedAt e) = Some t0 /\ coolOffMs o <= now - t0 /\
      m' !! k = Some (mkEntry HalfOpen (consecutiveFailures e) (openedAt e)).

Lemma promoted_refl (o : CircuitOptions) (now : Z) (m : gmap string Entry) :
  promoted o now m m.
Proof. intros k. left. reflexivity. Qed.

Lemma promoted_trans (o : CircuitOptions) (now : Z) (m1 m2 m3 : gmap string Entry) :
  promoted o now m1 m2 -> promoted o now m2 m3 -> promoted o now m1 m3.
Proof.
  intros H12 H23 k. destruct (H23 k) as [E23 | (e & t0 & E2 & Hs & Ht & Hc & E3)].
  - rewrite E23. exact (H12 k).
  - destruct (H12 k) as [E12 | (e' & t1 & E1 & Hs' & Ht' & Hc' & E2')].
    + right. exists e, t0. rewrite <- E12. repeat split; assumption.
    + rewrite E2 in E2'. injection E2' as ->. simpl in Hs. discriminate.
Qed.

Lemma isOpen_promoted (o : CircuitOptions) (now : Z) (m : gmap string Entry) (p t : string) :
  promoted o now m (snd (isOpen o now m p t)).
Proof.
  unfold isOpen. destruct (m !! key p t) as [e|] eqn:Hk; [| apply promoted_refl].
  destruct (state e) eqn:Hs; try apply promoted_refl.
  destruct (openedAt_truthy (openedAt e)) as [t0|] eqn:Ht; [| apply promoted_refl].
  destruct (Z.leb_spec (coolOffMs o) (now - t0)); [| apply promoted_refl].
  intros k. cbn [snd]. destruct (decide (key p t = k)) as [<-|Hne].
  - right. exists e, t0. rewrite lookup_insert_eq. repeat split; assumption.
  - left. apply lookup_insert_ne, Hne.
Qed.

(** A query that answers false leaves a non-open entry, and the entry it
    saw was not open within its cool-off. *)
Lemma isOpen_false (o : CircuitOptions) (now : Z) (m : gmap string Entry) (p t : string) :
  fst (isOpen o now m p t) = false ->
  (forall e, m !! key p t = Some e -> state e = Open ->
     exists t0, openedAt_truthy (openedAt e) = Some t0 /\ coolOffMs o <= now - t0) /\
  (forall e, snd (isOpen o now m p t) !! key p t = Some e -> state e <> Open).
Proof.
  unfold isOpen. destruct (m !! key p t) as [e|] eqn:Hk; intros Hf.
  - destruct (state e) eqn:Hs; cbn [fst snd] in Hf |- *.
    + split; [intros e' He' Ho; congruence |].
      intros e' He'. rewrite ?Hk in He'. injection He' as <-. rewrite Hs. discriminate.
    + destruct (openedAt_truthy (openedAt e)) as [t0|] eqn:Ht; [| discriminate].
      destruct (Z.leb_spec (coolOffMs o) (now - t0)); cbn [fst snd] in Hf |- *;
        [| discriminate].
      split.
      * intros e' He' _. rewrite ?Hk in He'. injection He' as <-. exists t0. split; assumption.
      * intros e'. rewrite lookup_insert_eq. intros He'. injection He' as <-.
        discriminate.
    + split; [intros e' He' Ho; congruence |].
      intros e' He'. rewrite ?Hk in He'. injection He' as <-. rewrite Hs. discriminate.
  - cbn [fst snd]. split; intros e He; [congruence |]. rewrite ?Hk in He. discriminate.
Qed.

Lemma promoted_not_open (o : CircuitOptions) (now : Z) (m m' : gmap string Entry) (k : string) :
  promoted o now m m' ->
  (forall e, m !! k = Some e -> state e <> Open) ->
  forall e, m' !! k = Some e -> state e <> Open.
Proof.
  intros Hp Hm e He. destruct (Hp k) as [E | (e0 & t0 & _ & _ & _ & _ & E)].
  - rewrite E in He. exact (Hm e He).
  - rewrite E in He. injection He as <-. discriminate.
Qed.

Lemma promoted_open_elapsed (o : CircuitOptions) (now : Z) (m m' : gmap string Entry)
    (k : string) (e : Entry) :
  promoted o now m m' -> m !! k = Some e -> state e = Open ->
  m' !! k = Some e \/
  exists t0, openedAt_truthy (openedAt e) = Some t0 /\ coolOffMs o <= now - t0.
Proof.
  intros Hp Hm Ho. destruct (Hp k) as [E | (e0 & t0 & E0 & _ & Ht & Hc & _)].
  - left. rewrite E. exact Hm.
  - right. rewrite Hm in E0. injection E0 as <-. exists t0. split; assumption.
Qed.

Lemma score_one_provider (book : PriceBook) (st : TelemetryStats) (pre : Prelude)
    (p : RegisteredProvider) (rv rj : Q) (s : ScoredProvider) :
  score_one book st pre p rv rj = Some s -> sp_provider s = p.
Proof.
  unfold score_one.
  destruct (cost_part book pre p rv) as [[s1 ce]|]; intros H; [| discriminate].
  injection H as <-. reflexivity.
Qed.

(** The hard budget ceiling of the loop body. *)
Lemma score_one_budget (book : PriceBook) (st : TelemetryStats) (pre : Prelude)
    (p : RegisteredProvider) (rv rj : Q) (s : ScoredProvider) (c : CostEstimate) :
  score_one book st pre p rv rj = Some s ->
  truthyQ (pl_sessionBudget pre) = true ->
  costEstimate s = Some c ->
  (totalUSD c <= default 0 (pl_sessionBudget pre) - pl_sessionSpent pre)%Q.
Proof.
  unfold score_one. intros H Hb Hc.
  destruct (cost_part book pre p rv) as [[s1 ce]|] eqn:Hcp; [| discriminate].
  injection H as <-. cbn [costEstimate] in Hc. subst ce.
  unfold cost_part in Hcp.
  destruct (cost (default emptyCaps (capabilities p))) as [cc|]; [| discriminate].
  destruct (truthyS (cc_simulatedModelName cc) && Qltb 0 (pl_promptLength pre));
    [| discriminate].
  destruct (estimateCostWithVariance book _ rv) as [c0|]; [| discriminate].
  rewrite Hb in Hcp. cbn [andb] in Hcp.
  destruct (Qltb (default 0%Q (pl_sessionBudget pre) - pl_sessionSpent pre) (totalUSD c0)) eqn:E;
    [discriminate |].
  injection Hcp as _ ->.
  unfold Qltb in E. apply negb_false_iff, Qle_bool_iff in E. exact E.
Qed.

Lemma select_loop_sound (book : PriceBook) (tel : gmap string (list TelemetryRecord))
    (co : CircuitOptions) (now : Z) (mt : string) (pre : Prelude) (rv rj : nat -> Q)
    (ps : list RegisteredProvider) :
  forall i cb l cb',
  select_loop book tel co now mt pre rv rj i ps cb = (l, cb') ->
  promoted co now cb cb' /\
  forall s, In s l -> exists p j, In p ps /\
    score_one book (getStats tel (provider p) mt) pre p (rv j) (rj j) = Some s /\
    (forall e, cb !! key (provider p) mt = Some e -> state e = Open ->
       exists t0, openedAt_truthy (openedAt e) = Some t0 /\ coolOffMs co <= now - t0) /\
    (forall e, cb' !! key (provider p) mt = Some e -> state e <> Open).
Proof.
  induction ps as [|p ps IH]; intros i cb l cb' H; simpl in H.
  - injection H as <- <-. split; [apply promoted_refl | intros s []].
  - destruct (isOpen co now cb (provider p) mt) as [b cb1] eqn:Hq.
    pose proof (isOpen_promoted co now cb (provider p) mt) as Hp1. rewrite Hq in Hp1.
    simpl in Hp1.
    destruct b.
    + destruct (IH _ _ _ _ H) as [Hp2 Hs].
      split; [exact (promoted_trans _ _ _ _ _ Hp1 Hp2) |].
      intros s Hin. destruct (Hs s Hin) as (p' & j & Hin' & Hsc & Hpre & Hpost).
      exists p', j. split; [right; exact Hin' |]. split; [exact Hsc |].
      split; [| exact Hpost].
      intros e He Ho. destruct (promoted_open_elapsed _ _ _ _ _ _ Hp1 He Ho) as [E1 | Hel];
        [exact (Hpre e E1 Ho) | exact Hel].
    + destruct (select_loop book tel co now mt pre rv rj (S i) ps cb1) as [rest cb2] eqn:Hr.
      injection H as <- <-.
      destruct (IH _ _ _ _ Hr) as [Hp2 Hs].
      split; [exact (promoted_trans _ _ _ _ _ Hp1 Hp2) |].
      assert (Hf : fst (isOpen co now cb (provider p) mt) = false) by (rewrite Hq; reflexivity).
      destruct (isOpen_false co now cb (provider p) mt Hf) as [Hpre0 Hpost0].
      rewrite Hq in Hpost0. simpl in Hpost0.
      assert (Hcur : forall s, In s rest -> exists p' j, In p' (p :: ps) /\
        score_one book (getStats tel (provider p') mt) pre p' (rv j) (rj j) = Some s /\
        (forall e, cb !! key (provider p') mt = Some e -> state e = Open ->
           exists t0, openedAt_truthy (openedAt e) = Some t0 /\ coolOffMs co <= now - t0) /\
        (forall e, cb2 !! key (provider p') mt = Some e -> state e <> Open)).
      { intros s Hin. destruct (Hs s Hin) as (p' & j & Hin' & Hsc & Hpre & Hpost).
        exists p', j. split; [right; exact Hin' |]. split; [exact Hsc |].
        split; [| exact Hpost].
        intros e He Ho. destruct (promoted_open_elapsed _ _ _ _ _ _ Hp1 He Ho) as [E1 | Hel];
          [exact (Hpre e E1 Ho) | exact Hel]. }
      destruct (score_one book (getStats tel (provider p) mt) pre p (rv i) (rj i)) as [s0|] eqn:Hs0;
        [| exact Hcur].
      intros s [<-|Hin]; [| exact (Hcur s Hin)].
      exists p, i. split; [left; reflexivity |]. split; [exact Hs0 |].
      split; [exact Hpre0 |].
      exact (promoted_not_open _ _ _ _ _ Hp2 Hpost0).
Qed.

Lemma insert_desc_in (x s : ScoredProvider) (l : list ScoredProvider) :
  In s (insert_desc x l) <-> x = s \/ In s l.
Proof.
  induction l as [|y ys IH]; simpl; [tauto |].
  destruct (Qle_bool (score y) (score x)); simpl; [tauto |]. rewrite IH. tauto.
Qed.

Lemma sort_desc_in (s : ScoredProvider) (l : list ScoredProvider) :
  In s (sort_desc l) <-> In s l.
Proof.
  induction l as [|x xs IH]; simpl; [tauto |]. rewrite insert_desc_in, IH.
  split; intros [H|H]; auto.
Qed.

(** Property X1. What [select] guarantees of every ranked entry when the
    budget is a truthy number: it is a candidate; its breaker entry was not open within
    its cool-off when ranking started and is not open after it; its cost
    estimate, if any, fits in [sessionBudget - sessionSpent]. *)
Lemma select_sound (book : PriceBook) (tel : gmap string (list TelemetryRecord))
    (co : CircuitOptions) (now : Z) (cb : gmap string Entry) (mt : string)
    (providers : list RegisteredProvider) (o : PolicyOptions) (rv rj : nat -> Q)
    (s : ScoredProvider) :
  In s (fst (select book tel co now cb mt providers o rv rj)) ->
  In (sp_provider s) providers /\
  (forall e, cb !! key (provider (sp_provider s)) mt = Some e -> state e = Open ->
     exists t0, openedAt_truthy (openedAt e) = Some t0 /\ coolOffMs co <= now - t0) /\
  (forall e, snd (select book tel co now cb mt providers o rv rj)
               !! key (provider (sp_provider s)) mt = Some e -> state e <> Open) /\
  (truthyQ (sessionBudget o) = true -> forall c, costEstimate s = Some c ->
     (totalUSD c <= default 0 (sessionBudget o) - default 0 (sessionSpent o))%Q).
Proof.
  unfold select.
  destruct (select_loop book tel co now mt (prelude o) rv rj 0 providers cb) as [l cb'] eqn:Hl.
  cbn [fst snd]. intros Hin. apply (proj1 (sort_desc_in _ _)) in Hin.
  destruct (select_loop_sound _ _ _ _ _ _ _ _ _ _ _ _ _ Hl) as [_ Hs].
  destruct (Hs s Hin) as (p & j & Hp & Hsc & Hpre & Hpost).
  pose proof (score_one_provider _ _ _ _ _ _ _ Hsc) as <-.
  split; [exact Hp |]. split; [exact Hpre |]. split; [exact Hpost |].
  intros Hb c Hc. exact (score_one_budget _ _ _ _ _ _ _ _ Hsc Hb Hc).
Qed.

(** Two ranked lists that agree up to equal-valued scores. *)
Definition same_rank (a b : ScoredProvider) : Prop :=
  sp_provider a = sp_provider b /\ stats a = stats b /\
  costEstimate a = costEstimate b /\ (score a == score b)%Q.

Definition opt_same_rank (a b : option ScoredProvider) : Prop :=
  match a, b with
  | Some x, Some y => same_rank x y
  | None, None => True
  | _, _ => False
  end.

Lemma score_one_eps0 (book : PriceBook) (st : TelemetryStats) (pre : Prelude)
    (p : RegisteredProvider) (rv rj1 rj2 : Q) :
  (pl_explorationEpsilon pre == 0)%Q ->
  opt_same_rank (score_one book st pre p rv rj1) (score_one book st pre p rv rj2).
Proof.
  intros Heps. unfold score_one.
  destruct (cost_part book pre p rv) as [[s1 ce]|]; [| exact I].
  cbn [opt_same_rank]. unfold same_rank. cbn [sp_provider stats costEstimate score].
  split; [reflexivity |]. split; [reflexivity |]. split; [reflexivity |].
  rewrite Heps. ring.
Qed.

Lemma select_loop_eps0 (book : PriceBook) (tel : gmap string (list TelemetryRecord))
    (co : CircuitOptions) (now : Z) (mt : string) (pre : Prelude) (rv rj1 rj2 : nat -> Q)
    (ps : list RegisteredProvider) :
  (pl_explorationEpsilon pre == 0)%Q ->
  forall i cb,
  Forall2 same_rank (fst (select_loop book tel co now mt pre rv rj1 i ps cb))
                    (fst (select_loop book tel co now mt pre rv rj2 i ps cb)) /\
  snd (select_loop book tel co now mt pre rv rj1 i ps cb) =
  snd (select_loop book tel co now mt pre rv rj2 i ps cb).
Proof.
  intros Heps. induction ps as [|p ps IH]; intros i cb; simpl; [split; [constructor | reflexivity] |].
  destruct (isOpen co now cb (provider p) mt) as [b cb1].
  destruct b; [apply IH |].
  destruct (IH (S i) cb1) as [Hl Hc].
  destruct (select_loop book tel co now mt pre rv rj1 (S i) ps cb1) as [l1 c1].
  destruct (select_loop book tel co now mt pre rv rj2 (S i) ps cb1) as [l2 c2].
  cbn [fst snd] in *. split; [| exact Hc].
  pose proof (score_one_eps0 book (getStats tel (provider p) mt) pre p (rv i) (rj1 i) (rj2 i) Heps) as Hs.
  destruct (score_one book (getStats tel (provider p) mt) pre p (rv i) (rj1 i));
  destruct (score_one book (getStats tel (provider p) mt) pre p (rv i) (rj2 i));
    cbn [opt_same_rank] in Hs; try contradiction.
  - constructor; assumption.
  - exact Hl.
Qed.

Lemma Qle_bool_compat (a a' b b' : Q) :
  (a == a')%Q -> (b == b')%Q -> Qle_bool a b = Qle_bool a' b'.
Proof.
  intros Ha Hb. destruct (Qle_bool a b) eqn:E1, (Qle_bool a' b') eqn:E2; try reflexivity.
  - apply Qle_bool_iff in E1. rewrite Ha, Hb in E1. apply Qle_bool_iff in E1. congruence.
  - apply Qle_bool_iff in E2. rewrite <- Ha, <- Hb in E2. apply Qle_bool_iff in E2. congruence.
Qed.

Lemma insert_desc_same (x x' : ScoredProvider) (l l' : list ScoredProvider) :
  same_rank x x' -> Forall2 same_rank l l' ->
  Forall2 same_rank (insert_desc x l) (insert_desc x' l').
Proof.
  intros Hx Hl. induction Hl as [|y y' ys ys' Hy Hys IH]; simpl.
  - constructor; [exact Hx | constructor].
  - rewrite (Qle_bool_compat (score y) (score y') (score x) (score x'));
      [| apply Hy | apply Hx].
    destruct (Qle_bool (score y') (score x')).
    + constructor; [exact Hx |]. constructor; assumption.
    + constructor; assumption.
Qed.

Lemma sort_desc_same (l l' : list ScoredProvider) :
  Forall2 same_rank l l' -> Forall2 same_rank (sort_desc l) (sort_desc l').
Proof.
  induction 1 as [|x x' xs xs' Hx Hxs IH]; simpl; [constructor |].
  apply insert_desc_same; assumption.
Qed.

Lemma same_rank_providers (l l' : list ScoredProvider) :
  Forall2 same_rank l l' -> map sp_provider l = map sp_provider l'.
Proof.
  induction 1 as [|x x' xs xs' Hx Hxs IH]; simpl; [reflexivity |].
  destruct Hx as [-> _]. f_equal. exact IH.
Qed.

(** Concrete candidates: a priced provider and a local one. *)
Definition wcost : CostCapabilities := mkCostCaps (Some "gpt-4o-mini") None None None.

Definition wpriced : RegisteredProvider :=
  mkProvider 1 "TEXT_SMALL" "openai-sim" (Some 5%Q)
    (Some (mkCaps (Some 800%Q) (Some (9 # 10)) (Some wcost))).

Definition wlocal : RegisteredProvider :=
  mkProvider 2 "TEXT_SMALL" "ollama-phi3" (Some 5%Q)
    (Some (mkCaps (Some 200%Q) (Some (5 # 10)) None)).

Definition noOptions : PolicyOptions :=
  mkOptions None None None None None None None None None None None.

(** Options of a ranking with a configured session budget of 0. *)
Definition zeroBudgetOptions : PolicyOptions :=
  mkOptions (Some 4000%Q) None None None None None (Some 0%Q) None None (Some 0%Q) (Some 0%Q).

(** Claim C1 (failing input). With [sessionBudget = 0] configured (and
    nothing spent), [select] ranks the priced candidate although its cost
    estimate exceeds [sessionBudget - sessionSpent = 0]: the hard ceiling
    is guarded by the truthiness test [if (sessionBudget)]. *)
Theorem select_zero_budget_admits_cost :
  exists s c,
    fst (select CostFacts.wbook ∅ CircuitFacts.wopts 100000 ∅ "TEXT_SMALL" [wpriced]
           zeroBudgetOptions (fun _ => 1 # 2) (fun _ => 0%Q)) = [s] /\
    costEstimate s = Some c /\
    sessionBudget zeroBudgetOptions = Some 0%Q /\ sessionSpent zeroBudgetOptions = Some 0%Q /\
    (0 - 0 < totalUSD c)%Q.
Proof.
  vm_compute. eexists. eexists.
  split; [reflexivity |]. split; [reflexivity |]. split; [reflexivity |].
  split; [reflexivity |]. vm_compute. reflexivity.
Qed.

(** Claim C10. With [explorationEpsilon = 0] and the cost-variance draws
    held fixed (the same [rv], e.g. constantly [0.5] where the variance
    factor is 1), two rankings of the same candidates under the same
    telemetry, circuit state, time and options, whatever their jitter draws
    [rj1] and [rj2], give the same ordering of providers, the same entries
    up to equal-valued scores, and the same circuit state. *)
Theorem select_deterministic_eps0 (book : PriceBook)
    (tel : gmap string (list TelemetryRecord)) (co : CircuitOptions) (now : Z)
    (cb : gmap string Entry) (mt : string) (providers : list RegisteredProvider)
    (o : PolicyOptions) (rv rj1 rj2 : nat -> Q) (q : Q) :
  explorationEpsilon o = Some q -> (q == 0)%Q ->
  let r1 := select book tel co now cb mt providers o rv rj1 in
  let r2 := select book tel co now cb mt providers o rv rj2 in
  map sp_provider (fst r1) = map sp_provider (fst r2) /\
  Forall2 same_rank (fst r1) (fst r2) /\
  snd r1 = snd r2.
Proof.
  intros He Hq r1 r2.
  assert (Heps : (pl_explorationEpsilon (prelude o) == 0)%Q)
    by (unfold prelude; cbn [pl_explorationEpsilon]; rewrite He; exact Hq).
  destruct (select_loop_eps0 book tel co now mt (prelude o) rv rj1 rj2 providers Heps 0 cb)
    as [Hl Hc].
  unfold r1, r2, select.
  destruct (select_loop book tel co now mt (prelude o) rv rj1 0 providers cb) as [l1 c1].
  destruct (select_loop book tel co now mt (prelude o) rv rj2 0 providers cb) as [l2 c2].
  cbn [fst snd] in *.
  pose proof (sort_desc_same l1 l2 Hl) as Hs.
  split; [apply same_rank_providers, Hs |]. split; [exact Hs | exact Hc].
Qed.

Definition epsZeroOptions : PolicyOptions :=
  mkOptions (Some 50%Q) (Some true) None None None None (Some 0%Q) None None None None.

Lemma select_sound_witness :
  let r := select CostFacts.wbook ∅ CircuitFacts.wopts 100000 ∅ "TEXT_SMALL"
             [wpriced; wlocal] epsZeroOptions (fun _ => 1 # 2) (fun _ => 0%Q) in
  exists s, In s (fst r) /\ In (sp_provider s) [wpriced; wlocal].
Proof.
  intros r.
  assert (E : exists s l, fst r = s :: l) by (vm_compute; eexists; eexists; reflexivity).
  destruct E as (s & l & E).
  assert (H : In s (fst r)) by (rewrite E; left; reflexivity).
  exists s. split; [exact H |].
  exact (proj1 (select_sound CostFacts.wbook ∅ CircuitFacts.wopts 100000 ∅ "TEXT_SMALL"
                  [wpriced; wlocal] epsZeroOptions (fun _ => 1 # 2) (fun _ => 0%Q) s H)).
Defined.

Lemma select_deterministic_eps0_witness :
  map sp_provider (fst (select CostFacts.wbook ∅ CircuitFacts.wopts 100000 ∅ "TEXT_SMALL"
                          [wpriced; wlocal] epsZeroOptions (fun _ => 1 # 2) (fun _ => 0%Q))) =
  map sp_provider (fst (select CostFacts.wbook ∅ CircuitFacts.wopts 100000 ∅ "TEXT_SMALL"
                          [wpriced; wlocal] epsZeroOptions (fun _ => 1 # 2)
                          (fun i => (inject_Z (Z.of_nat i) / 3)%Q))).
Proof.
  destruct (select_deterministic_eps0 CostFacts.wbook ∅ CircuitFacts.wopts 100000 ∅ "TEXT_SMALL"
              [wpriced; wlocal] epsZeroOptions (fun _ => 1 # 2) (fun _ => 0%Q)
              (fun i => (inject_Z (Z.of_nat i) / 3)%Q) 0%Q eq_refl (Qeq_refl 0)) as [H _].
  exact H.
Defined.

End PolicyFacts.

(** ** Router *)
Module RouterFacts.

Import Costs Circuit Telemetry Policy Router PolicyFacts.
Open Scope Q_scope.

(** Prices of the price book are non-negative. *)
Definition book_wfb (book : PriceBook) : bool :=
  forallb (fun kv => Qle_bool 0 (input kv.2) && Qle_bool 0 (output kv.2))
    (map_to_list book).

Definition optb (f : Q -> bool) (o : option Q) : bool :=
  match o with Some x => f x | None => true end.

(** A cost declaration with a positive [tokenCharsPerToken] and a
    non-negative fee and discount, when given. *)
Definition cost_wfb (cc : CostCapabilities) : bool :=
  optb (Qltb 0) (tokenCharsPerToken cc) && optb (Qle_bool 0) (cc_requestFixedFeeUSD cc) &&
  optb (Qle_bool 0) (cc_discountFactor cc).

Definition caps_wfb (p : RegisteredProvider) : bool :=
  match cost (default emptyCaps (capabilities p)) with
  | Some cc => cost_wfb cc
  | None => true
  end.

Lemma Qltb_true (a b : Q) : Qltb a b = true -> a < b.
Proof.
  unfold Qltb. intros H. apply negb_true_iff in H. apply Qnot_le_lt.
  intros Hle. apply Qle_bool_iff in Hle. congruence.
Qed.

Lemma book_wfb_lookup (book : PriceBook) (k : string) (mc : ModelCosts) :
  book_wfb book = true -> book !! k = Some mc -> 0 <= input mc /\ 0 <= output mc.
Proof.
  intros Hb Hk. unfold book_wfb in Hb. rewrite forallb_forall in Hb.
  assert (Hin : In (k, mc) (map_to_list book)).
  { apply list_elem_of_In. apply elem_of_map_to_list. exact Hk. }
  specialize (Hb _ Hin). cbn [snd] in Hb. apply andb_true_iff in Hb as [H1 H2].
  split; apply Qle_bool_iff; assumption.
Qed.

Lemma getModelCosts_wf (book : PriceBook) (name : string) (mc : ModelCosts) :
  book_wfb book = true -> getModelCosts book name = Some mc ->
  0 <= input mc /\ 0 <= output mc.
Proof.
  intros Hb. unfold getModelCosts.
  destruct (book !! name) as [c|] eqn:E.
  - intros H. injection H as <-. exact (book_wfb_lookup _ _ _ Hb E).
  - exact (book_wfb_lookup _ _ _ Hb).
Qed.

Lemma Qnn_plus (a b : Q) : 0 <= a -> 0 <= b -> 0 <= a + b.
Proof. intros. lra. Qed.

Lemma estimateCost_nonneg (book : PriceBook) (p : CostEstimateParams) (c : CostEstimate) :
  book_wfb book = true -> 0 < promptChars p ->
  optb (Qltb 0) (charsPerToken p) = true ->
  optb (Qle_bool 0) (requestFixedFeeUSD p) = true ->
  optb (Qle_bool 0) (discountFactor p) = true ->
  estimateCost book p = Some c -> 0 <= totalUSD c.
Proof.
  intros Hb Hpc Hcpt Hfee Hdisc H. unfold estimateCost in H.
  destruct (getModelCosts book (simulatedModelName p)) as [mc|] eqn:Hmc; [| discriminate].
  injection H as <-. cbn [totalUSD].
  destruct (getModelCosts_wf _ _ _ Hb Hmc) as [Hin Hout].
  assert (Hc : 0 < default 4 (charsPerToken p)).
  { destruct (charsPerToken p) as [x|]; simpl in *; [apply Qltb_true; exact Hcpt | lra]. }
  assert (Hf : 0 <= default 0 (requestFixedFeeUSD p)).
  { destruct (requestFixedFeeUSD p); simpl in *; [apply Qle_bool_iff; exact Hfee | lra]. }
  assert (Hd : 0 <= default 1 (discountFactor p)).
  { destruct (discountFactor p); simpl in *; [apply Qle_bool_iff; exact Hdisc | lra]. }
  assert (Hit : 0 <= inject_Z (estimateTokens (promptChars p) (default 4 (charsPerToken p)))).
  { unfold estimateTokens.
    apply Qle_trans with (promptChars p / default 4 (charsPerToken p)); [| apply Qle_ceiling].
    apply Qlt_le_weak. apply Qmult_lt_0_compat; [exact Hpc | apply Qinv_lt_0_compat; exact Hc]. }
  assert (Hfb : forall z, 0 <= inject_Z (Z.max 1 z)).
  { intros z. change 0 with (inject_Z 0). rewrite <- Zle_Qle. lia. }
  assert (Hk : 0 <= / 1000) by (apply Qinv_le_0_compat; lra).
  apply Qmult_le_0_compat; [| exact Hd].
  apply Qnn_plus; [apply Qnn_plus | exact Hf].
  - apply Qmult_le_0_compat; [| exact Hin]. apply Qmult_le_0_compat; [exact Hit | exact Hk].
  - apply Qmult_le_0_compat; [| exact Hout]. apply Qmult_le_0_compat; [| exact Hk].
    destruct (expectedOutputTokens p) as [x|]; [| apply Hfb].
    destruct (Qltb 0 x) eqn:Ex; [| apply Hfb].
    apply Qlt_le_weak, Qltb_true, Ex.
Qed.

Lemma estimateCostWithVariance_nonneg (book : PriceBook) (p : CostEstimateParams) (r : Q)
    (c : CostEstimate) :
  book_wfb book = true -> 0 < promptChars p ->
  optb (Qltb 0) (charsPerToken p) = true ->
  optb (Qle_bool 0) (requestFixedFeeUSD p) = true ->
  optb (Qle_bool 0) (discountFactor p) = true ->
  0 <= r <= 1 ->
  estimateCostWithVariance book p r = Some c -> 0 <= totalUSD c.
Proof.
  intros Hb Hpc Hcpt Hfee Hdisc Hr H. unfold estimateCostWithVariance in H.
  destruct (estimateCost book p) as [b|] eqn:E; [| discriminate].
  injection H as <-. cbn [totalUSD].
  apply Qmult_le_0_compat; [exact (estimateCost_nonneg _ _ _ Hb Hpc Hcpt Hfee Hdisc E) | lra].
Qed.

Lemma cost_part_nonneg (book : PriceBook) (pre : Prelude) (p : RegisteredProvider) (rv : Q)
    (s1 : Q) (c : CostEstimate) :
  book_wfb book = true -> caps_wfb p = true -> 0 <= rv <= 1 ->
  cost_part book pre p rv = Some (s1, Some c) -> 0 <= totalUSD c.
Proof.
  intros Hb Hc Hr. unfold cost_part. unfold caps_wfb in Hc.
  destruct (cost (default emptyCaps (capabilities p))) as [cc|]; [| discriminate].
  destruct (truthyS (cc_simulatedModelName cc) && Qltb 0 (pl_promptLength pre)) eqn:Eg;
    [| discriminate].
  apply andb_true_iff in Eg as [_ Epl].
  destruct (estimateCostWithVariance book _ rv) as [c0|] eqn:Ec; [| discriminate].
  destruct (truthyQ (pl_sessionBudget pre) && _); [discriminate |].
  intros H. injection H as _ <-.
  unfold cost_wfb in Hc. apply andb_true_iff in Hc as [Hc Hd].
  apply andb_true_iff in Hc as [Ht Hf].
  refine (estimateCostWithVariance_nonneg _ _ _ _ Hb _ _ _ _ Hr Ec);
    [exact (Qltb_true _ _ Epl) | exact Ht | exact Hf | exact Hd].
Qed.

Lemma score_one_nonneg (book : PriceBook) (st : TelemetryStats) (pre : Prelude)
    (p : RegisteredProvider) (rv rj : Q) (s : ScoredProvider) (c : CostEstimate) :
  book_wfb book = true -> caps_wfb p = true -> 0 <= rv <= 1 ->
  score_one book st pre p rv rj = Some s -> costEstimate s = Some c -> 0 <= totalUSD c.
Proof.
  intros Hb Hc Hr. unfold score_one.
  destruct (cost_part book pre p rv) as [[s1 ce]|] eqn:Hcp; [| discriminate].
  intros H. injection H as <-. cbn [costEstimate]. intros ->.
  exact (cost_part_nonneg _ _ _ _ _ _ Hb Hc Hr Hcp).
Qed.

(** Every ranked entry comes from the loop body on one of the candidates. *)
Lemma select_origin (book : PriceBook) (tel : gmap string (list TelemetryRecord))
    (co : CircuitOptions) (now : Z) (cb : gmap string Entry) (mt : string)
    (providers : list RegisteredProvider) (o : PolicyOptions) (rv rj : nat -> Q)
    (s : ScoredProvider) :
  In s (fst (select book tel co now cb mt providers o rv rj)) ->
  exists p j, In p providers /\
    score_one book (getStats tel (provider p) mt) (prelude o) p (rv j) (rj j) = Some s.
Proof.
  unfold select.
  destruct (select_loop book tel co now mt (prelude o) rv rj 0 providers cb) as [l cb'] eqn:Hl.
  cbn [fst]. intros Hin. apply (proj1 (sort_desc_in _ _)) in Hin.
  destruct (select_loop_sound _ _ _ _ _ _ _ _ _ _ _ _ _ Hl) as [_ Hs].
  destruct (Hs s Hin) as (p & j & Hp & Hsc & _).
  exists p, j. split; [exact Hp | exact Hsc].
Qed.

Lemma candidatesOf_incl (providers : list RegisteredProvider) (hint : option string)
    (p : RegisteredProvider) :
  In p (candidatesOf providers hint) -> In p providers.
Proof.
  unfold candidatesOf.
  destruct hint as [h|]; [| tauto]. destruct (truthyS (Some h)); [| tauto].
  intros H. apply list_elem_of_In in H. apply list_elem_of_filter in H as [_ H].
  apply list_elem_of_In. exact H.
Qed.

(** [scored.find(s => s.provider === rp)] finds an entry for every ranked
    provider. *)
Lemma costOf_in (scored : list ScoredProvider) (s0 : ScoredProvider) :
  In s0 scored ->
  exists s, In s scored /\ rid (sp_provider s) = rid (sp_provider s0) /\
    costOf scored (sp_provider s0) = costEstimate s.
Proof.
  intros Hin. unfold costOf.
  destruct (List.find (fun s => Nat.eqb (rid (sp_provider s)) (rid (sp_provider s0))) scored)
    as [s|] eqn:E.
  - apply find_some in E as [Hs Heq]. apply Nat.eqb_eq in Heq.
    exists s. split; [exact Hs |]. split; [exact Heq | reflexivity].
  - pose proof (find_none _ _ E s0 Hin) as H. cbn beta in H.
    rewrite Nat.eqb_refl in H. discriminate.
Qed.

(** The retry loop charges the ledger once, on success, with the estimate
    of the provider that answered. *)
Lemma attempt_loop_spend (cfg : RouterConfig) (mt : string) (scored : list ScoredProvider)
    (handle : Z -> RegisteredProvider -> HandlerResult) (ranked : list RegisteredProvider) :
  forall attempts lastError st,
  match attempt_loop cfg mt scored handle ranked attempts lastError st with
  | (inl d, st') => exists rp, In rp ranked /\ res_provider d = provider rp /\
      res_costEstimate d = costOf scored rp /\
      r_sessionSpent st' = match costOf scored rp with
                           | Some c => r_sessionSpent st + totalUSD c
                           | None => r_sessionSpent st
                           end
  | (inr _, st') => r_sessionSpent st' = r_sessionSpent st
  end.
Proof.
  induction ranked as [|rp rest IH]; intros attempts lastError st; simpl; [reflexivity |].
  destruct (Z.ltb (maxRetries cfg) attempts); [reflexivity |].
  destruct (handle (attempts + 1)%Z rp) as [v lat t|isT lat t].
  - exists rp. split; [left; reflexivity |]. split; [reflexivity |]. split; reflexivity.
  - match goal with
    | |- context [attempt_loop cfg mt scored handle rest ?a ?l ?s] =>
        specialize (IH a l s); destruct (attempt_loop cfg mt scored handle rest a l s)
          as [[d|e] st']
    end; cbn [r_sessionSpent] in IH.
    + destruct IH as (rp' & Hin & H1 & H2 & H3).
      exists rp'. split; [right; exact Hin |]. split; [exact H1 |]. split; [exact H2 | exact H3].
    + exact IH.
Qed.

(** Concrete router: a window of 100 records, the breaker options of the
    circuit examples, two retries and a session budget of 1 USD. *)
Definition wcfg : RouterConfig := mkConfig 100 CircuitFacts.wopts 2 (Some 1).

Definition wst : RouterState := mkState ∅ ∅ 0.

Definition wreq : Params := mkRequest (Some (JStr "Summarize the quarterly report")) None None.

Definition whandle (n : Z) (rp : RegisteredProvider) : HandlerResult := HOk 7 120 100120.


(** Claim C2. For every dispatch whose inputs are well formed (non-negative
    prices, positive [tokenCharsPerToken], non-negative fees and discounts,
    variance draws in [0, 1], and registrations identified by their object
    identity): the session spend never decreases; a success returns the
    provider and the cost estimate of a ranked entry and raises the spend by
    that estimate's [totalUSD] (by 0 when it has none); every error leaves
    the spend unchanged. *)
Theorem dispatch_spend (cfg : RouterConfig) (book : PriceBook)
    (providers : list RegisteredProvider) (mt : string) (params : Params)
    (o : PolicyOptions) (hint : option string) (now : Z) (rv rj : nat -> Q)
    (handle : Z -> RegisteredProvider -> HandlerResult) (st : RouterState) :
  book_wfb book = true ->
  forallb caps_wfb providers = true ->
  (forall i, 0 <= rv i <= 1) ->
  (forall p1 p2, In p1 providers -> In p2 providers -> rid p1 = rid p2 -> p1 = p2) ->
  let res := useModelWithInfo cfg book providers mt params o hint now rv rj handle st in
  let ranking := fst (select book (telemetry st) (circuitOptions cfg) now (circuit st) mt
                        (candidatesOf providers hint) (rankOptions cfg st params o) rv rj) in
  r_sessionSpent st <= r_sessionSpent (snd res) /\
  match fst res with
  | inl d => exists s, In s ranking /\ res_provider d = provider (sp_provider s) /\
      res_costEstimate d = costEstimate s /\
      r_sessionSpent (snd res) ==
        r_sessionSpent st + match costEstimate s with Some c => totalUSD c | None => 0 end
  | inr _ => r_sessionSpent (snd res) = r_sessionSpent st
  end.
Proof.
  intros Hb Hc Hr Hid. cbv zeta. unfold useModelWithInfo.
  remember (candidatesOf providers hint) as cands eqn:Hcand.
  destruct cands as [|p0 ps0]; [cbn [fst snd]; split; [apply Qle_refl | reflexivity] |].
  cbv iota. rewrite Hcand.
  destruct (select book (telemetry st) (circuitOptions cfg) now (circuit st) mt
              (candidatesOf providers hint) (rankOptions cfg st params o) rv rj)
    as [scored cb] eqn:Hsel.
  cbv iota zeta. cbn [fst snd].
  destruct scored as [|s0 ss0]; [cbn [fst snd r_sessionSpent]; split; [apply Qle_refl | reflexivity] |].
  cbv iota.
  assert (Hor : forall x, In x (s0 :: ss0) -> In (sp_provider x) providers /\
                  forall c, costEstimate x = Some c -> 0 <= totalUSD c).
  { intros x Hx.
    assert (Hx' : In x (fst (select book (telemetry st) (circuitOptions cfg) now (circuit st) mt
                           (candidatesOf providers hint) (rankOptions cfg st params o) rv rj)))
      by (rewrite Hsel; exact Hx).
    destruct (select_origin _ _ _ _ _ _ _ _ _ _ _ Hx') as (p & j & Hp & Hsc).
    pose proof (score_one_provider _ _ _ _ _ _ _ Hsc) as Hpe.
    pose proof (candidatesOf_incl _ _ _ Hp) as Hp'.
    split; [rewrite Hpe; exact Hp' |].
    intros c Hce. refine (score_one_nonneg _ _ _ _ _ _ _ c Hb _ (Hr j) Hsc Hce).
    rewrite forallb_forall in Hc. exact (Hc p Hp'). }
  pose proof (attempt_loop_spend cfg mt (s0 :: ss0) handle (map sp_provider (s0 :: ss0)) 0%Z None
                (mkState (telemetry st) cb (r_sessionSpent st))) as Hal.
  destruct (attempt_loop cfg mt (s0 :: ss0) handle (map sp_provider (s0 :: ss0)) 0%Z None
              (mkState (telemetry st) cb (r_sessionSpent st))) as [[d|[le at_]] st2].
  - cbn [fst snd]. cbn [r_sessionSpent] in Hal.
    destruct Hal as (rp & Hin & H1 & H2 & H3).
    apply in_map_iff in Hin as (s1 & <- & Hs1).
    destruct (costOf_in _ _ Hs1) as (s & Hs & Hrid & Hco).
    assert (Heq : sp_provider s = sp_provider s1)
      by exact (Hid _ _ (proj1 (Hor s Hs)) (proj1 (Hor s1 Hs1)) Hrid).
    rewrite Hco in H2, H3.
    assert (Hspend : r_sessionSpent st2 ==
              r_sessionSpent st + match costEstimate s with Some c => totalUSD c | None => 0 end).
    { rewrite H3. destruct (costEstimate s); [apply Qeq_refl | lra]. }
    split.
    + rewrite Hspend. destruct (costEstimate s) as [c|] eqn:Ec; [| lra].
      pose proof (proj2 (Hor s Hs) c Ec). lra.
    + exists s. split; [exact Hs |]. split; [rewrite H1, Heq; reflexivity |].
      split; [exact H2 | exact Hspend].
  - cbn [fst snd]. cbn [r_sessionSpent] in Hal. rewrite Hal.
    split; [apply Qle_refl | reflexivity].
Qed.

(** Claim C8 (amended). When the candidate list is not empty but [select]
    ranks nothing, the dispatch fails with [AllUnavailable] without calling
    any handler (the result does not depend on [handle]): telemetry and the
    session spend are those of before, and the only change of the breaker
    map is the open -> half-open promotion of entries whose cool-off had
    elapsed, made by the [isOpen] queries of the ranking. *)
Theorem dispatch_all_unavailable (cfg : RouterConfig) (book : PriceBook)
    (providers : list RegisteredProvider) (mt : string) (params : Params)
    (o : PolicyOptions) (hint : option string) (now : Z) (rv rj : nat -> Q)
    (handle : Z -> RegisteredProvider -> HandlerResult) (st : RouterState) :
  candidatesOf providers hint <> [] ->
  let sel := select book (telemetry st) (circuitOptions cfg) now (circuit st) mt
               (candidatesOf providers hint) (rankOptions cfg st params o) rv rj in
  fst sel = [] ->
  useModelWithInfo cfg book providers mt params o hint now rv rj handle st =
    (inr AllUnavailable, mkState (telemetry st) (snd sel) (r_sessionSpent st)) /\
  promoted (circuitOptions cfg) now (circuit st) (snd sel).
Proof.
  intros Hne sel Hnil. subst sel. unfold useModelWithInfo.
  destruct (candidatesOf providers hint) as [|p0 ps0] eqn:Hcand; [contradiction |].
  rewrite <- Hcand. rewrite <- Hcand in Hnil.
  unfold select in *.
  destruct (select_loop book (telemetry st) (circuitOptions cfg) now mt
              (prelude (rankOptions cfg st params o)) rv rj 0 (candidatesOf providers hint)
              (circuit st)) as [l cb] eqn:Hl.
  cbn [fst snd] in *. rewrite Hnil.
  split; [reflexivity |].
  exact (proj1 (select_loop_sound _ _ _ _ _ _ _ _ _ _ _ _ _ Hl)).
Qed.

(** Claim C9 (failing input). The ranking options of a dispatch take
    [promptLength] from [params.prompt] alone: a caller-supplied
    [options.promptLength] of 5 is overridden, and a request that carries
    its text in [params.text] ("hello") is ranked with [promptLength = 0],
    with or without the override. *)
Theorem rankOptions_prompt_length_from_prompt_only :
  let req := mkRequest None (Some (JStr "hello")) None in
  let o := mkOptions (Some 5) None None None None None None None None None None in
  promptLength (rankOptions wcfg wst req o) = Some 0 /\
  promptLength (rankOptions wcfg wst req noOptions) = Some 0.
Proof. split; reflexivity. Qed.

Lemma dispatch_spend_witness :
  book_wfb CostFacts.wbook = true /\ forallb caps_wfb [wpriced; wlocal] = true /\
  (forall i : nat, 0 <= (fun _ : nat => 1 # 2) i <= 1) /\
  (forall p1 p2, In p1 [wpriced; wlocal] -> In p2 [wpriced; wlocal] -> rid p1 = rid p2 ->
     p1 = p2) /\
  r_sessionSpent wst <=
    r_sessionSpent (snd (useModelWithInfo wcfg CostFacts.wbook [wpriced; wlocal] "TEXT_SMALL"
                           wreq noOptions None 100000 (fun _ => 1 # 2) (fun _ => 0)
                           whandle wst)).
Proof.
  assert (H1 : book_wfb CostFacts.wbook = true) by (vm_compute; reflexivity).
  assert (H2 : forallb caps_wfb [wpriced; wlocal] = true) by (vm_compute; reflexivity).
  assert (H3 : forall i : nat, 0 <= (fun _ : nat => 1 # 2) i <= 1)
    by (intros _; split; vm_compute; discriminate).
  assert (H4 : forall p1 p2, In p1 [wpriced; wlocal] -> In p2 [wpriced; wlocal] ->
                 rid p1 = rid p2 -> p1 = p2)
    by (intros p1 p2 [<-|[<-|[]]] [<-|[<-|[]]]; simpl; congruence).
  pose proof (dispatch_spend wcfg CostFacts.wbook [wpriced; wlocal] "TEXT_SMALL" wreq noOptions
                None 100000 (fun _ => 1 # 2) (fun _ => 0) whandle wst H1 H2 H3 H4) as H.
  cbv zeta in H.
  split; [exact H1 |]. split; [exact H2 |]. split; [exact H3 |]. split; [exact H4 |].
  exact (proj1 H).
Defined.

(** A router whose session budget (one millionth of a USD) is below the
    price of any request, and a breaker map whose entry for the priced
    provider opened at time 1000 after three failures. *)
Definition wcfgTiny : RouterConfig := mkConfig 100 CircuitFacts.wopts 2 (Some (1 # 1000000)).

Definition wstOpen : RouterState :=
  mkState ∅ (<[key "openai-sim" "TEXT_SMALL" := mkEntry Open 3 (Some 1000%Z)]> ∅) 0.

Lemma dispatch_all_unavailable_witness :
  candidatesOf [wpriced] None <> [] /\
  fst (select CostFacts.wbook (telemetry wstOpen) (circuitOptions wcfgTiny) 100000
         (circuit wstOpen) "TEXT_SMALL" (candidatesOf [wpriced] None)
         (rankOptions wcfgTiny wstOpen wreq noOptions) (fun _ => 1 # 2) (fun _ => 0)) = [] /\
  fst (useModelWithInfo wcfgTiny CostFacts.wbook [wpriced] "TEXT_SMALL" wreq noOptions None
         100000 (fun _ => 1 # 2) (fun _ => 0) whandle wstOpen) = inr AllUnavailable.
Proof.
  assert (H1 : candidatesOf [wpriced] None <> []) by discriminate.
  assert (H2 : fst (select CostFacts.wbook (telemetry wstOpen) (circuitOptions wcfgTiny) 100000
                      (circuit wstOpen) "TEXT_SMALL" (candidatesOf [wpriced] None)
                      (rankOptions wcfgTiny wstOpen wreq noOptions) (fun _ => 1 # 2)
                      (fun _ => 0)) = [])
    by (vm_compute; reflexivity).
  destruct (dispatch_all_unavailable wcfgTiny CostFacts.wbook [wpriced] "TEXT_SMALL" wreq
              noOptions None 100000 (fun _ => 1 # 2) (fun _ => 0) whandle wstOpen H1 H2)
    as [H _].
  split; [exact H1 |]. split; [exact H2 |]. rewrite H. reflexivity.
Defined.

(** Claim C8 (counterexample). A dispatch that fails with [AllUnavailable]
    (the only candidate is over the budget) still changes the breaker: its
    entry, open since time 1000, is moved to half-open by the ranking. *)
Lemma dispatch_all_unavailable_counterexample :
  fst (useModelWithInfo wcfgTiny CostFacts.wbook [wpriced] "TEXT_SMALL" wreq noOptions None
         100000 (fun _ => 1 # 2) (fun _ => 0) whandle wstOpen) = inr AllUnavailable /\
  circuit wstOpen !! key "openai-sim" "TEXT_SMALL" = Some (mkEntry Open 3 (Some 1000%Z)) /\
  circuit (snd (useModelWithInfo wcfgTiny CostFacts.wbook [wpriced] "TEXT_SMALL" wreq
                  noOptions None 100000 (fun _ => 1 # 2) (fun _ => 0) whandle wstOpen))
    !! key "openai-sim" "TEXT_SMALL" = Some (mkEntry HalfOpen 3 (Some 1000%Z)).
Proof. vm_compute. split; [reflexivity |]. split; reflexivity. Qed.

End RouterFacts.

(** ** Further properties of the circuit breaker *)
Module CircuitExtra.

Import Circuit Telemetry.

Definition wf_entry (o : CircuitOptions) (e : Entry) : Prop :=
  (state e = Closed <-> openedAt e = None) /\
  (state e <> Closed -> failureThreshold o <= consecutiveFailures e) /\
  0 <= consecutiveFailures e.

Definition map_wf (o : CircuitOptions) (m : gmap string Entry) : Prop :=
  forall k e, m !! k = Some e -> wf_entry o e.

Lemma wf_closed0 (o : CircuitOptions) : wf_entry o (mkEntry Closed 0 None).
Proof.
  unfold wf_entry; cbn [state consecutiveFailures openedAt].
  split; [tauto | split; [intros H; contradiction H; reflexivity | lia]].
Qed.

Lemma exec_wf (o : CircuitOptions) (m : gmap string Entry) (c : Call) :
  map_wf o m -> map_wf o (exec o m c).
Proof.
  intros Hm k e' Hk. destruct c as [now p t|p t|now p t|p t|]; simpl in Hk.
  - unfold isOpen in Hk.
    destruct (m !! key p t) as [e|] eqn:He; [| exact (Hm _ _ Hk)].
    destruct (state e) eqn:Hs; try exact (Hm _ _ Hk).
    destruct (openedAt_truthy (openedAt e)) as [t0|] eqn:Ho; [| exact (Hm _ _ Hk)].
    destruct (Z.leb (coolOffMs o) (now - t0)); [| exact (Hm _ _ Hk)].
    cbn [snd] in Hk.
    destruct (decide (key p t = k)) as [<-|Hne].
    + rewrite lookup_insert_eq in Hk. injection Hk as <-.
      destruct (Hm _ _ He) as (H1 & H2 & H3).
      assert (Hn : openedAt e <> None) by (intros E; rewrite E in Ho; discriminate).
      unfold wf_entry; cbn [state consecutiveFailures openedAt].
      split; [split; [discriminate | contradiction] |].
      split; [intros _; apply H2; rewrite Hs; discriminate | exact H3].
    + rewrite lookup_insert_ne in Hk by exact Hne. exact (Hm _ _ Hk).
  - unfold onSuccess in Hk.
    destruct (decide (key p t = k)) as [<-|Hne].
    + rewrite lookup_insert_eq in Hk. injection Hk as <-. apply wf_closed0.
    + rewrite lookup_insert_ne in Hk by exact Hne. exact (Hm _ _ Hk).
  - unfold onFailure in Hk. cbv zeta in Hk.
    destruct (decide (key p t = k)) as [<-|Hne].
    + rewrite lookup_insert_eq in Hk. injection Hk as <-.
      set (e := default freshEntry (m !! key p t)).
      assert (He : wf_entry o e)
        by (unfold e; destruct (m !! key p t) eqn:E; [exact (Hm _ _ E) | apply wf_closed0]).
      destruct He as (H1 & H2 & H3).
      destruct (Z.leb_spec (failureThreshold o) (consecutiveFailures e + 1)).
      * unfold wf_entry; cbn [state consecutiveFailures openedAt].
        split; [split; discriminate | split; [intros _; lia | lia]].
      * unfold wf_entry; cbn [state consecutiveFailures openedAt].
        split; [exact H1 |]. split; [intros Hc; specialize (H2 Hc); lia | lia].
    + rewrite lookup_insert_ne in Hk by exact Hne. exact (Hm _ _ Hk).
  - unfold reset in Hk.
    destruct (decide (key p t = k)) as [<-|Hne].
    + rewrite lookup_delete_eq in Hk. discriminate.
    + rewrite lookup_delete_ne in Hk by exact Hne. exact (Hm _ _ Hk).
  - unfold clearAll in Hk. rewrite lookup_empty in Hk. discriminate.
Qed.

Lemma exec_fold_wf (o : CircuitOptions) (cs : list Call) :
  forall m, map_wf o m -> map_wf o (fold_left (exec o) cs m).
Proof.
  induction cs as [|c cs IH]; intros m Hm; simpl; [exact Hm |].
  apply IH, exec_wf, Hm.
Qed.

(** Property X2. In every map a new breaker reaches through any sequence of
    its methods, an entry is closed exactly when it has no [openedAt]; an
    entry that is open or half-open has at least [failureThreshold]
    consecutive failures; and the failure counter is never negative. *)
Theorem breaker_entries_wf (o : CircuitOptions) (cs : list Call) (k : string) (e : Entry) :
  exec_all o cs !! k = Some e ->
  (state e = Closed <-> openedAt e = None) /\
  (state e <> Closed -> failureThreshold o <= consecutiveFailures e) /\
  0 <= consecutiveFailures e.
Proof.
  intros Hk. refine (exec_fold_wf o cs ∅ _ k e Hk).
  intros k' e' H. rewrite lookup_empty in H. discriminate.
Qed.

Definition wcalls : list Call :=
  [CFailure 1000 "p" "T"; CIsOpen 1500 "p" "T"; CFailure 2000 "p" "T";
   CFailure 3000 "p" "T"; CReset "q" "T"].

Lemma breaker_entries_wf_witness :
  exec_all CircuitFacts.wopts wcalls !! key "p" "T" = Some (mkEntry Open 3 (Some 3000)) /\
  failureThreshold CircuitFacts.wopts <= 3.
Proof.
  assert (H : exec_all CircuitFacts.wopts wcalls !! key "p" "T" = Some (mkEntry Open 3 (Some 3000)))
    by (vm_compute; reflexivity).
  split; [exact H |].
  destruct (breaker_entries_wf _ _ _ _ H) as (_ & H2 & _).
  apply H2. discriminate.
Defined.

(** Property X3. [reset] forgets a key and nothing else: the entry is gone,
    [isOpen] answers false without changing the map, the next [onFailure]
    counts from 1 as on a fresh key, and every other key keeps its entry;
    after [clearAll], [isOpen] answers false for every key. *)
Theorem reset_forgets (o : CircuitOptions) (now : Z) (m : gmap string Entry) (p t : string) :
  reset m p t !! key p t = None /\
  isOpen o now (reset m p t) p t = (false, reset m p t) /\
  onFailure o now (reset m p t) p t !! key p t =
    Some (if Z.leb (failureThreshold o) 1 then mkEntry Open 1 (Some now)
          else mkEntry Closed 1 None) /\
  (forall k, k <> key p t -> reset m p t !! k = m !! k) /\
  (forall p' t', isOpen o now clearAll p' t' = (false, clearAll)).
Proof.
  assert (H : reset m p t !! key p t = None) by apply lookup_delete_eq.
  split; [exact H |]. split; [unfold isOpen; rewrite H; reflexivity |].
  split; [unfold onFailure; rewrite lookup_insert_eq, H; reflexivity |].
  split; [intros k Hk; apply lookup_delete_ne; congruence |].
  intros p' t'. reflexivity.
Qed.

Lemma append_assoc_str (a b c : string) :
  String.append a (String.append b c) = String.append (String.append a b) c.
Proof. induction a as [|ch a IH]; [reflexivity | exact (f_equal (String ch) IH)]. Qed.

(** Property X4. The key [provider::modelType] does not separate the pair:
    provider [p::a] with model type [t] and provider [p] with model type
    [a::t] share one breaker entry and one telemetry ring, so [isOpen],
    [onFailure] and [getStats] behave identically on both pairs. *)
Theorem key_collision (p a t : string) :
  let p1 := String.append p (String.append "::" a) in
  let t2 := String.append a (String.append "::" t) in
  key p1 t = key p t2 /\
  (forall o now m, isOpen o now m p1 t = isOpen o now m p t2) /\
  (forall o now m, onFailure o now m p1 t = onFailure o now m p t2) /\
  (forall store, getStats store p1 t = getStats store p t2).
Proof.
  intros p1 t2.
  assert (Hk : key p1 t = key p t2).
  { unfold key, p1, t2. rewrite <- !append_assoc_str. reflexivity. }
  split; [exact Hk |].
  split; [intros o now m; unfold isOpen; rewrite Hk; reflexivity |].
  split; [intros o now m; unfold onFailure; rewrite Hk; reflexivity |].
  intros store. unfold getStats. rewrite Hk. reflexivity.
Qed.

End CircuitExtra.

(** ** Further properties of telemetry *)
Module TelemetryExtra.

Import Telemetry TelemetryFacts.

Lemma count_outcome_sum (arr : list TelemetryRecord) :
  count_outcome Success arr + count_outcome Failure arr + count_outcome Timeout arr =
  Z.of_nat (length arr).
Proof.
  induction arr as [|r arr IH]; [reflexivity |].
  unfold count_outcome in *. rewrite !filter_cons.
  destruct (outcome r); cbn [Outcome_eqb];
    repeat (case_decide; [| try congruence]); try congruence; cbn [length]; lia.
Qed.

(** [getStats] on a non-empty window, with the percentile indices. *)
Lemma getStats_nonempty (store : gmap string (list TelemetryRecord)) (prov mt : string) :
  let arr := default [] (store !! key prov mt) in
  let lat := sort_asc (map latencyMs arr) in
  let n := Z.of_nat (length arr) in
  arr <> [] ->
  getStats store prov mt =
    mkStats n (count_outcome Success arr) (count_outcome Failure arr)
      (count_outcome Timeout arr) (lat !! pct_index n (1 # 2)) (lat !! pct_index n (95 # 100)).
Proof.
  intros arr lat n Ha.
  assert (Hlen : length lat = length arr)
    by (unfold lat; rewrite (Permutation_length (sort_asc_perm _)), length_map; reflexivity).
  unfold getStats. fold arr.
  destruct (Z.eqb_spec (Z.of_nat (length arr)) 0) as [H0|_];
    [destruct arr; [congruence | discriminate] |].
  fold lat. fold n. unfold percentile.
  destruct lat as [|x xs] eqn:Hl; [destruct arr; [congruence | discriminate] |].
  rewrite Hlen. reflexivity.
Qed.

(** Property X5. [getStats] counts the whole window ([count] is the number
    of stored records for the key), the three outcome tallies add up to
    [count], and each percentile is [null] exactly when the window is
    empty. *)
Theorem getStats_tallies (store : gmap string (list TelemetryRecord)) (prov mt : string) :
  let arr := default [] (store !! key prov mt) in
  let s := getStats store prov mt in
  count s = Z.of_nat (length arr) /\
  success s + failure s + timeout s = count s /\
  (count s = 0 <-> p50Latency s = None) /\
  (count s = 0 <-> p95Latency s = None).
Proof.
  intros arr s. unfold s.
  destruct arr as [|r rs] eqn:Ha.
  - unfold getStats. fold arr. rewrite Ha. cbn. tauto.
  - assert (Hne : arr <> []) by (rewrite Ha; discriminate).
    pose proof (getStats_nonempty store prov mt Hne) as E. fold arr in E. rewrite E.
    cbn [count success failure timeout p50Latency p95Latency].
    rewrite count_outcome_sum.
    set (lat := sort_asc (map latencyMs arr)).
    assert (Hlen : length lat = length arr)
      by (unfold lat; rewrite (Permutation_length (sort_asc_perm _)), length_map; reflexivity).
    assert (Hn : 0 < Z.of_nat (length arr)) by (rewrite Ha; simpl; lia).
    assert (Hs : forall p, is_Some (lat !! pct_index (Z.of_nat (length arr)) p)).
    { intros p. apply lookup_lt_is_Some_2. rewrite Hlen.
      pose proof (pct_index_lt _ p Hn) as H. rewrite Nat2Z.id in H. exact H. }
    rewrite <- Ha.
    destruct (Hs (1 # 2)) as [a Ea]. destruct (Hs (95 # 100)) as [b Eb].
    rewrite Ea, Eb. split; [reflexivity |]. split; [reflexivity |].
    split; split; intros H; try discriminate; lia.
Qed.

Lemma sorted_lookup_le (l : list Z) :
  StronglySorted Z.le l ->
  forall i j a b, (i <= j)%nat -> l !! i = Some a -> l !! j = Some b -> a <= b.
Proof.
  induction 1 as [|x xs Hs IH Hall]; intros i j a b Hij Ha Hb; [discriminate |].
  destruct i as [|i], j as [|j]; cbn in Ha, Hb.
  - assert (a = b) by congruence. lia.
  - injection Ha as <-. rewrite Forall_forall in Hall.
    apply Hall. exact (list_elem_of_lookup_2 _ _ _ Hb).
  - lia.
  - exact (IH i j a b ltac:(lia) Ha Hb).
Qed.

Lemma pct_index_mono (n : Z) : 0 < n -> (pct_index n (1 # 2) <= pct_index n (95 # 100))%nat.
Proof.
  intros Hn. unfold pct_index.
  assert (H0 : (0 <= inject_Z (n - 1))%Q)
    by (change 0%Q with (inject_Z 0); rewrite <- Zle_Qle; lia).
  assert (Hf : Qfloor ((1 # 2) * inject_Z (n - 1)) <= Qfloor ((95 # 100) * inject_Z (n - 1)))
    by (apply Qfloor_resp_le; lra).
  lia.
Qed.

(** Property X6. For a non-empty window, [p50Latency] and [p95Latency] are
    latencies recorded in the window, and [p50Latency <= p95Latency]. *)
Theorem getStats_p50_le_p95 (store : gmap string (list TelemetryRecord)) (prov mt : string) :
  let arr := default [] (store !! key prov mt) in
  arr <> [] ->
  exists a b, p50Latency (getStats store prov mt) = Some a /\
    p95Latency (getStats store prov mt) = Some b /\ a <= b /\
    In a (map latencyMs arr) /\ In b (map latencyMs arr).
Proof.
  intros arr Hne. rewrite (getStats_nonempty store prov mt Hne).
  cbn [p50Latency p95Latency]. fold arr.
  set (lat := sort_asc (map latencyMs arr)).
  set (n := Z.of_nat (length arr)).
  assert (Hlen : length lat = length arr)
    by (unfold lat; rewrite (Permutation_length (sort_asc_perm _)), length_map; reflexivity).
  assert (Hn : 0 < n) by (unfold n; destruct arr; [congruence | simpl; lia]).
  assert (Hs : forall p, is_Some (lat !! pct_index n p)).
  { intros p. apply lookup_lt_is_Some_2. rewrite Hlen.
    pose proof (pct_index_lt _ p Hn) as H. unfold n in H at 2. rewrite Nat2Z.id in H. exact H. }
  destruct (Hs (1 # 2)) as [a Ea]. destruct (Hs (95 # 100)) as [b Eb].
  assert (Hin : forall x i, lat !! i = Some x -> In x (map latencyMs arr)).
  { intros x i Hx. apply (Permutation_in _ (sort_asc_perm _)).
    apply list_elem_of_In. exact (list_elem_of_lookup_2 _ _ _ Hx). }
  exists a, b. split; [exact Ea |]. split; [exact Eb |].
  split; [| split; [exact (Hin _ _ Ea) | exact (Hin _ _ Eb)]].
  refine (sorted_lookup_le lat _ _ _ a b (pct_index_mono n Hn) Ea Eb).
  apply Sorted_StronglySorted; [intros x y z; lia | apply sort_asc_sorted].
Qed.

Lemma getStats_p50_le_p95_witness :
  default [] (wstore 10 !! key "p" "T") <> [] /\
  exists a b, p50Latency (getStats (wstore 10) "p" "T") = Some a /\
    p95Latency (getStats (wstore 10) "p" "T") = Some b /\ a <= b.
Proof.
  assert (H : default [] (wstore 10 !! key "p" "T") <> []) by (vm_compute; discriminate).
  split; [exact H |].
  destruct (getStats_p50_le_p95 (wstore 10) "p" "T" H) as (a & b & Ha & Hb & Hab & _).
  exists a, b. split; [exact Ha |]. split; [exact Hb | exact Hab].
Defined.

(** Property X7. [record] touches only the ring of its own key: for every
    other key the stored ring and the statistics are unchanged. *)
Theorem record_frame (W : Z) (store : gmap string (list TelemetryRecord))
    (rec : TelemetryRecord) (prov mt : string) :
  key prov mt <> key (provider rec) (modelType rec) ->
  record W store rec !! key prov mt = store !! key prov mt /\
  getStats (record W store rec) prov mt = getStats store prov mt.
Proof.
  intros Hne.
  assert (H : record W store rec !! key prov mt = store !! key prov mt)
    by (unfold record; apply lookup_insert_ne; congruence).
  split; [exact H |]. unfold getStats. rewrite H. reflexivity.
Qed.

Lemma record_frame_witness :
  key "q" "T" <> key (provider (wrec 1)) (modelType (wrec 1)) /\
  getStats (record 10 (wstore 3) (wrec 1)) "q" "T" = getStats (wstore 3) "q" "T".
Proof.
  assert (H : key "q" "T" <> key (provider (wrec 1)) (modelType (wrec 1)))
    by (vm_compute; discriminate).
  split; [exact H | exact (proj2 (record_frame 10 (wstore 3) (wrec 1) "q" "T" H))].
Defined.

End TelemetryExtra.

(** ** Further properties of the cost estimator *)
Module CostExtra.

Import Costs RouterFacts.
Open Scope Q_scope.

Definition withChars (p : CostEstimateParams) (chars : Q) : CostEstimateParams :=
  mkParams chars (expectedOutputTokens p) (simulatedModelName p) (charsPerToken p)
    (requestFixedFeeUSD p) (discountFactor p).

Lemma inject_Z_mono (a b : Z) : (a <= b)%Z -> inject_Z a <= inject_Z b.
Proof. rewrite Zle_Qle. tauto. Qed.

(** Property X8. With non-negative prices, a positive [charsPerToken] and a
    non-negative discount, [estimateCost] is monotone in [promptChars]: a
    longer prompt never gets fewer input or output tokens, nor a lower
    [totalUSD]. *)
Theorem estimateCost_mono (book : PriceBook) (p : CostEstimateParams) (chars' : Q)
    (c c' : CostEstimate) :
  book_wfb book = true -> optb (Qltb 0) (charsPerToken p) = true ->
  optb (Qle_bool 0) (discountFactor p) = true ->
  promptChars p <= chars' ->
  estimateCost book p = Some c -> estimateCost book (withChars p chars') = Some c' ->
  (inputTokens c <= inputTokens c')%Z /\ outputTokens c <= outputTokens c' /\
  totalUSD c <= totalUSD c'.
Proof.
  intros Hb Hcpt Hdisc Hle H H'. unfold estimateCost in H, H'. cbv zeta in H, H'.
  unfold withChars in H'.
  cbn [promptChars expectedOutputTokens simulatedModelName charsPerToken requestFixedFeeUSD
       discountFactor] in H'.
  destruct (getModelCosts book (simulatedModelName p)) as [mc|] eqn:Hmc; [| discriminate].
  injection H as <-. injection H' as <-.
  cbn [inputTokens outputTokens totalUSD].
  destruct (getModelCosts_wf _ _ _ Hb Hmc) as [Hin Hout].
  set (cpt := default 4 (charsPerToken p)).
  assert (Hc : 0 < cpt).
  { unfold cpt. destruct (charsPerToken p) as [x|]; simpl in *; [apply Qltb_true; exact Hcpt | lra]. }
  assert (Hd : 0 <= default 1 (discountFactor p)).
  { destruct (discountFactor p); simpl in *; [apply Qle_bool_iff; exact Hdisc | lra]. }
  set (it := estimateTokens (promptChars p) cpt).
  set (it' := estimateTokens chars' cpt).
  assert (Hit : (it <= it')%Z).
  { unfold it, it', estimateTokens. apply Qceiling_resp_le.
    apply Qmult_le_compat_r; [exact Hle |]. apply Qlt_le_weak, Qinv_lt_0_compat, Hc. }
  assert (Hfb : inject_Z (Z.max 1 (Qceiling (inject_Z it * (2 # 10)))) <=
                inject_Z (Z.max 1 (Qceiling (inject_Z it' * (2 # 10))))).
  { apply inject_Z_mono. apply Z.max_le_compat_l. apply Qceiling_resp_le.
    pose proof (inject_Z_mono _ _ Hit). lra. }
  set (ot := match expectedOutputTokens p with
             | Some x => if Qltb 0 x then x else inject_Z (Z.max 1 (Qceiling (inject_Z it * (2 # 10))))
             | None => inject_Z (Z.max 1 (Qceiling (inject_Z it * (2 # 10))))
             end).
  set (ot' := match expectedOutputTokens p with
             | Some x => if Qltb 0 x then x else inject_Z (Z.max 1 (Qceiling (inject_Z it' * (2 # 10))))
             | None => inject_Z (Z.max 1 (Qceiling (inject_Z it' * (2 # 10))))
             end).
  assert (Hot : ot <= ot').
  { unfold ot, ot'. destruct (expectedOutputTokens p) as [x|]; [| exact Hfb].
    destruct (Qltb 0 x); [apply Qle_refl | exact Hfb]. }
  assert (Hk : 0 <= / 1000) by (apply Qinv_le_0_compat; lra).
  split; [exact Hit |]. split; [exact Hot |].
  apply Qmult_le_compat_r; [| exact Hd].
  apply Qplus_le_compat; [apply Qplus_le_compat | apply Qle_refl].
  - apply Qmult_le_compat_r; [| exact Hin]. apply Qmult_le_compat_r; [| exact Hk].
    apply inject_Z_mono, Hit.
  - apply Qmult_le_compat_r; [| exact Hout]. apply Qmult_le_compat_r; [exact Hot | exact Hk].
Qed.

Lemma estimateCost_mono_witness :
  exists c c', estimateCost CostFacts.wbook CostFacts.wparams = Some c /\
    estimateCost CostFacts.wbook (withChars CostFacts.wparams 800) = Some c' /\
    totalUSD c <= totalUSD c'.
Proof.
  assert (E : exists c, estimateCost CostFacts.wbook CostFacts.wparams = Some c)
    by (eexists; vm_compute; reflexivity).
  assert (E' : exists c', estimateCost CostFacts.wbook (withChars CostFacts.wparams 800) = Some c')
    by (eexists; vm_compute; reflexivity).
  destruct E as [c Hc]. destruct E' as [c' Hc'].
  exists c, c'. split; [exact Hc |]. split; [exact Hc' |].
  refine (proj2 (proj2 (estimateCost_mono CostFacts.wbook CostFacts.wparams 800 c c'
                          _ _ _ _ Hc Hc'))).
  - vm_compute. reflexivity.
  - vm_compute. reflexivity.
  - vm_compute. reflexivity.
  - vm_compute. discriminate.
Defined.

(** Property X9. The variance draw [r] (in [0, 1]) changes neither the token
    counts nor the fixed fee of an estimate, and keeps a non-negative
    [totalUSD] within 95% to 105% of the estimate without variance. *)
Theorem variance_band (book : PriceBook) (p : CostEstimateParams) (r : Q)
    (c cv : CostEstimate) :
  0 <= r <= 1 ->
  estimateCost book p = Some c -> estimateCostWithVariance book p r = Some cv ->
  inputTokens cv = inputTokens c /\ outputTokens cv = outputTokens c /\
  fixedFeeUSD cv = fixedFeeUSD c /\
  (0 <= totalUSD c -> (19 # 20) * totalUSD c <= totalUSD cv <= (21 # 20) * totalUSD c).
Proof.
  intros Hr Hc Hv. unfold estimateCostWithVariance in Hv. rewrite Hc in Hv.
  injection Hv as <-. cbn [inputTokens outputTokens fixedFeeUSD totalUSD].
  split; [reflexivity |]. split; [reflexivity |]. split; [reflexivity |].
  intros H0. set (t := totalUSD c).
  assert (Hlo : (19 # 20) <= 1 + (r - (1 # 2)) * (1 # 10)) by lra.
  assert (Hhi : 1 + (r - (1 # 2)) * (1 # 10) <= (21 # 20)) by lra.
  split.
  - rewrite (Qmult_comm t). apply Qmult_le_compat_r; [exact Hlo | exact H0].
  - rewrite (Qmult_comm t). apply Qmult_le_compat_r; [exact Hhi | exact H0].
Qed.

Lemma variance_band_witness :
  exists c cv, estimateCost CostFacts.wbook CostFacts.wparams = Some c /\
    estimateCostWithVariance CostFacts.wbook CostFacts.wparams 1 = Some cv /\
    totalUSD cv <= (21 # 20) * totalUSD c.
Proof.
  assert (E : exists c, estimateCost CostFacts.wbook CostFacts.wparams = Some c)
    by (eexists; vm_compute; reflexivity).
  assert (E' : exists cv, estimateCostWithVariance CostFacts.wbook CostFacts.wparams 1 = Some cv)
    by (eexists; vm_compute; reflexivity).
  destruct E as [c Hc]. destruct E' as [cv Hv].
  exists c, cv. split; [exact Hc |]. split; [exact Hv |].
  destruct (variance_band CostFacts.wbook CostFacts.wparams 1 c cv
              ltac:(split; vm_compute; discriminate) Hc Hv) as (_ & _ & _ & H).
  apply H. vm_compute in Hc. injection Hc as <-. vm_compute. discriminate.
Defined.

(** Property X10. The components of an estimate add up to its total:
    [totalUSD = inputCostUSD + outputCostUSD + fixedFeeUSD]. After the
    variance draw they no longer do when there is a fee: the total exceeds
    the sum of the components by [fixedFeeUSD * (r - 0.5) * 0.1], since the
    fee is not scaled by the variance factor while the total is. *)
Theorem estimate_components (book : PriceBook) (p : CostEstimateParams) (r : Q)
    (c cv : CostEstimate) :
  estimateCost book p = Some c -> estimateCostWithVariance book p r = Some cv ->
  totalUSD c == inputCostUSD c + outputCostUSD c + fixedFeeUSD c /\
  totalUSD cv - (inputCostUSD cv + outputCostUSD cv + fixedFeeUSD cv) ==
    fixedFeeUSD cv * ((r - (1 # 2)) * (1 # 10)).
Proof.
  intros Hc Hv. unfold estimateCostWithVariance in Hv. rewrite Hc in Hv.
  injection Hv as <-. cbn [inputCostUSD outputCostUSD fixedFeeUSD totalUSD].
  unfold estimateCost in Hc. cbv zeta in Hc.
  destruct (getModelCosts book (simulatedModelName p)) as [mc|]; [| discriminate].
  injection Hc as <-. cbn [inputCostUSD outputCostUSD fixedFeeUSD totalUSD].
  split; ring.
Qed.

Definition wfeeParams : CostEstimateParams :=
  mkParams 400 (Some 100) "gpt-4o-mini" (Some 4) (Some (1 # 100)) (Some 1).

Lemma estimate_components_witness :
  exists c cv, estimateCost CostFacts.wbook wfeeParams = Some c /\
    estimateCostWithVariance CostFacts.wbook wfeeParams 1 = Some cv /\
    ~ (totalUSD cv == inputCostUSD cv + outputCostUSD cv + fixedFeeUSD cv).
Proof.
  assert (E : exists c, estimateCost CostFacts.wbook wfeeParams = Some c)
    by (eexists; vm_compute; reflexivity).
  assert (E' : exists cv, estimateCostWithVariance CostFacts.wbook wfeeParams 1 = Some cv)
    by (eexists; vm_compute; reflexivity).
  destruct E as [c Hc]. destruct E' as [cv Hv].
  exists c, cv. split; [exact Hc |]. split; [exact Hv |].
  destruct (estimate_components CostFacts.wbook wfeeParams 1 c cv Hc Hv) as [_ H].
  intros Heq. rewrite Heq in H.
  assert (Hf : fixedFeeUSD cv == 1 # 100)
    by (vm_compute in Hv; injection Hv as <-; vm_compute; reflexivity).
  assert (H0 : fixedFeeUSD cv * ((1 - (1 # 2)) * (1 # 10)) == 0) by (rewrite <- H; ring).
  rewrite Hf in H0. vm_compute in H0. discriminate.
Defined.

End CostExtra.

(** ** Further properties of [RoutingPolicy.select] *)
Module PolicyExtra.

Import Costs Circuit Telemetry Policy PolicyFacts.
Open Scope Q_scope.

Definition score_ge (a b : ScoredProvider) : Prop := score b <= score a.

Lemma insert_desc_sorted (x : ScoredProvider) (l : list ScoredProvider) :
  Sorted score_ge l -> Sorted score_ge (insert_desc x l).
Proof.
  induction l as [|y ys IH]; intros Hs; simpl; [constructor; constructor |].
  destruct (Qle_bool (score y) (score x)) eqn:E.
  - constructor; [exact Hs |]. constructor. apply Qle_bool_iff, E.
  - apply Sorted_inv in Hs as [Hys Hhd].
    assert (Hyx : score x <= score y).
    { apply Qlt_le_weak, Qnot_le_lt. intros Hle. apply Qle_bool_iff in Hle. congruence. }
    constructor; [exact (IH Hys) |].
    destruct ys as [|z zs]; simpl; [constructor; exact Hyx |].
    destruct (Qle_bool (score z) (score x)); constructor; [exact Hyx |].
    inversion Hhd; assumption.
Qed.

Lemma sort_desc_sorted (l : list ScoredProvider) : Sorted score_ge (sort_desc l).
Proof. induction l as [|x xs IH]; simpl; [constructor | apply insert_desc_sorted, IH]. Qed.

Lemma insert_desc_perm (x : ScoredProvider) (l : list ScoredProvider) :
  insert_desc x l ≡ₚ x :: l.
Proof.
  induction l as [|y ys IH]; simpl; [reflexivity |].
  destruct (Qle_bool (score y) (score x)); [reflexivity |].
  rewrite IH. apply Permutation_swap.
Qed.

Lemma sort_desc_perm (l : list ScoredProvider) : sort_desc l ≡ₚ l.
Proof.
  induction l as [|x xs IH]; simpl; [reflexivity |]. rewrite insert_desc_perm, IH. reflexivity.
Qed.

Lemma select_loop_sub (book : PriceBook) (tel : gmap string (list TelemetryRecord))
    (co : CircuitOptions) (now : Z) (mt : string) (pre : Prelude) (rv rj : nat -> Q)
    (ps : list RegisteredProvider) :
  forall i cb, map sp_provider (fst (select_loop book tel co now mt pre rv rj i ps cb)) ⊆+ ps.
Proof.
  induction ps as [|p ps IH]; intros i cb; simpl; [reflexivity |].
  destruct (isOpen co now cb (provider p) mt) as [b cb1].
  destruct b; [apply submseteq_cons_r; left; apply IH |].
  specialize (IH (S i) cb1).
  destruct (select_loop book tel co now mt pre rv rj (S i) ps cb1) as [rest cb2].
  cbn [fst] in IH |- *.
  destruct (score_one book (getStats tel (provider p) mt) pre p (rv i) (rj i)) as [s|] eqn:Hs.
  - cbn [map]. rewrite (score_one_provider _ _ _ _ _ _ _ Hs). apply submseteq_skip, IH.
  - apply submseteq_cons_r. left. exact IH.
Qed.

(** Property X11. [select] returns its ranking in non-increasing score
    order, and ranks each registration at most as often as it occurs in
    [providers]: the ranked registrations are a sub-multiset of the
    candidates (so there are never more entries than candidates). *)
Theorem select_sorted_sub (book : PriceBook) (tel : gmap string (list TelemetryRecord))
    (co : CircuitOptions) (now : Z) (cb : gmap string Entry) (mt : string)
    (providers : list RegisteredProvider) (o : PolicyOptions) (rv rj : nat -> Q) :
  let r := fst (select book tel co now cb mt providers o rv rj) in
  Sorted (fun a b => score b <= score a) r /\
  map sp_provider r ⊆+ providers /\ (length r <= length providers)%nat.
Proof.
  intros r. subst r. unfold select.
  pose proof (select_loop_sub book tel co now mt (prelude o) rv rj providers 0 cb) as Hsub.
  destruct (select_loop book tel co now mt (prelude o) rv rj 0 providers cb) as [l cb'].
  cbn [fst] in Hsub |- *.
  assert (H : map sp_provider (sort_desc l) ⊆+ providers)
    by (rewrite (sort_desc_perm l); exact Hsub).
  split; [exact (sort_desc_sorted l) |]. split; [exact H |].
  apply submseteq_length in H. rewrite length_map in H. exact H.
Qed.

Lemma isOpen_fst_lookup (o : CircuitOptions) (now : Z) (m m' : gmap string Entry)
    (p t : string) :
  m !! key p t = m' !! key p t -> fst (isOpen o now m p t) = fst (isOpen o now m' p t).
Proof.
  intros H. unfold isOpen. rewrite H. destruct (m' !! key p t) as [e|]; [| reflexivity].
  destruct (state e); try reflexivity.
  destruct (openedAt_truthy (openedAt e)); [destruct (Z.leb _ _) |]; reflexivity.
Qed.

Lemma promoted_isOpen_false (o : CircuitOptions) (now : Z) (m m' : gmap string Entry)
    (p t : string) :
  promoted o now m m' -> fst (isOpen o now m p t) = false -> fst (isOpen o now m' p t) = false.
Proof.
  intros Hp Hf. destruct (Hp (key p t)) as [E | (e & t0 & _ & _ & _ & _ & E)].
  - rewrite <- Hf. symmetry. apply isOpen_fst_lookup. symmetry. exact E.
  - unfold isOpen. rewrite E. reflexivity.
Qed.

(** The loop body keeps a candidate unless the estimator throws or the
    hard budget ceiling applies. *)
Lemma score_one_some (book : PriceBook) (st : TelemetryStats) (o : PolicyOptions)
    (p : RegisteredProvider) (rv rj : Q) :
  (forall cc, cost (default emptyCaps (capabilities p)) = Some cc ->
     truthyQ (sessionBudget o) = false /\
     getModelCosts book (default "" (cc_simulatedModelName cc)) <> None) ->
  exists s, score_one book st (prelude o) p rv rj = Some s /\ sp_provider s = p.
Proof.
  intros Hc. unfold score_one.
  assert (H : exists x, cost_part book (prelude o) p rv = Some x).
  { unfold cost_part. destruct (cost (default emptyCaps (capabilities p))) as [cc|] eqn:E;
      [| eexists; reflexivity].
    destruct (Hc cc eq_refl) as [Hb Hm].
    destruct (truthyS (cc_simulatedModelName cc) && Qltb 0 (pl_promptLength (prelude o)));
      [| eexists; reflexivity].
    unfold estimateCostWithVariance, estimateCost. cbv zeta. cbn [simulatedModelName].
    destruct (getModelCosts book (default "" (cc_simulatedModelName cc))) as [mc|];
      [| congruence].
    replace (truthyQ (pl_sessionBudget (prelude o))) with false by (symmetry; exact Hb).
    eexists; reflexivity. }
  destruct H as [[s1 ce] ->]. eexists. split; reflexivity.
Qed.

Lemma select_loop_complete (book : PriceBook) (tel : gmap string (list TelemetryRecord))
    (co : CircuitOptions) (now : Z) (mt : string) (o : PolicyOptions) (rv rj : nat -> Q)
    (p : RegisteredProvider) :
  (forall cc, cost (default emptyCaps (capabilities p)) = Some cc ->
     truthyQ (sessionBudget o) = false /\
     getModelCosts book (default "" (cc_simulatedModelName cc)) <> None) ->
  forall ps i cb, In p ps -> fst (isOpen co now cb (provider p) mt) = false ->
  exists s, In s (fst (select_loop book tel co now mt (prelude o) rv rj i ps cb)) /\
    sp_provider s = p.
Proof.
  intros Hc ps. induction ps as [|q ps IH]; intros i cb Hin Hf; [destruct Hin |]. simpl.
  pose proof (isOpen_promoted co now cb (provider q) mt) as Hp1.
  destruct (isOpen co now cb (provider q) mt) as [b cb1] eqn:Hq. cbn [snd] in Hp1.
  pose proof (promoted_isOpen_false _ _ _ _ _ _ Hp1 Hf) as Hf1.
  destruct b.
  - destruct Hin as [<- | Hin]; [rewrite Hq in Hf; discriminate |].
    exact (IH (S i) cb1 Hin Hf1).
  - destruct (select_loop book tel co now mt (prelude o) rv rj (S i) ps cb1) as [rest cb2] eqn:Hr.
    cbn [fst].
    destruct Hin as [<- | Hin].
    + destruct (score_one_some book (getStats tel (provider q) mt) o q (rv i) (rj i) Hc)
        as (s & Hs & Hps).
      rewrite Hs. exists s. split; [left; reflexivity | exact Hps].
    + destruct (IH (S i) cb1 Hin Hf1) as (s & Hs & Hps). rewrite Hr in Hs. cbn [fst] in Hs.
      exists s. split; [| exact Hps].
      destruct (score_one _ _ _ _ _ _); [right |]; exact Hs.
Qed.

(** Property X12. [select] never drops a usable candidate: a registration
    in [providers] whose breaker is not open when [select] starts, and
    which declares no cost or else runs with a falsy [sessionBudget] and a
    priced model (or a ["default"] price), is ranked. *)
Theorem select_complete (book : PriceBook) (tel : gmap string (list TelemetryRecord))
    (co : CircuitOptions) (now : Z) (cb : gmap string Entry) (mt : string)
    (providers : list RegisteredProvider) (o : PolicyOptions) (rv rj : nat -> Q)
    (p : RegisteredProvider) :
  In p providers -> fst (isOpen co now cb (provider p) mt) = false ->
  (forall cc, cost (default emptyCaps (capabilities p)) = Some cc ->
     truthyQ (sessionBudget o) = false /\
     getModelCosts book (default "" (cc_simulatedModelName cc)) <> None) ->
  exists s, In s (fst (select book tel co now cb mt providers o rv rj)) /\ sp_provider s = p.
Proof.
  intros Hin Hf Hc. unfold select.
  pose proof (select_loop_complete book tel co now mt o rv rj p Hc providers 0 cb Hin Hf) as H.
  destruct (select_loop book tel co now mt (prelude o) rv rj 0 providers cb) as [l cb'].
  cbn [fst] in H |- *. destruct H as (s & Hs & Hps).
  exists s. split; [apply (proj2 (sort_desc_in _ _)), Hs | exact Hps].
Qed.

Lemma select_complete_witness :
  exists s, In s (fst (select CostFacts.wbook ∅ CircuitFacts.wopts 0 ∅ "T"
                        [wpriced; wlocal] noOptions (fun _ => 0) (fun _ => 0))) /\
    sp_provider s = wpriced.
Proof.
  apply (select_complete _ _ _ _ _ _ _ _ _ _ wpriced).
  - left. reflexivity.
  - reflexivity.
  - intros cc Hcc. vm_compute in Hcc. injection Hcc as <-.
    split; [reflexivity | vm_compute; discriminate].
Defined.

(** Property X13. The only change [select] makes to the breaker map is
    to promote to half-open entries that were open and whose cool-off had
    elapsed at [now]: every other entry, including failure counts, is
    left as it was, and no entry is added or removed. *)
Theorem select_only_promotes (book : PriceBook) (tel : gmap string (list TelemetryRecord))
    (co : CircuitOptions) (now : Z) (cb : gmap string Entry) (mt : string)
    (providers : list RegisteredProvider) (o : PolicyOptions) (rv rj : nat -> Q) :
  promoted co now cb (snd (select book tel co now cb mt providers o rv rj)).
Proof.
  unfold select.
  destruct (select_loop book tel co now mt (prelude o) rv rj 0 providers cb) as [l cb'] eqn:Hl.
  exact (proj1 (select_loop_sound _ _ _ _ _ _ _ _ _ _ _ _ _ Hl)).
Qed.






End PolicyExtra.

(** ** Further properties of [Router.useModelWithInfo] *)
Module RouterExtra.

Import Costs Circuit Telemetry Policy Router.
Open Scope Z_scope.


Lemma attempt_loop_success (cfg : RouterConfig) (mt : string) (scored : list ScoredProvider)
    (handle : Z -> RegisteredProvider -> HandlerResult) (ranked : list RegisteredProvider) :
  forall attempts lastError st d st',
  attempt_loop cfg mt scored handle ranked attempts lastError st = (inl d, st') ->
  circuit st' !! key (res_provider d) mt = Some (mkEntry Closed 0 None) /\
  In (res_provider d) (map provider ranked).
Proof.
  induction ranked as [|rp rest IH]; intros attempts lastError st d st' H; simpl in H;
    [discriminate |].
  destruct (Z.ltb (maxRetries cfg) attempts); [discriminate |].
  destruct (handle (attempts + 1) rp) as [v lat t|isT lat t].
  - injection H as <- <-. cbn [circuit res_provider]. unfold onSuccess.
    split; [apply lookup_insert_eq | left; reflexivity].
  - destruct (IH _ _ _ _ _ H) as [H1 H2]. split; [exact H1 | right; exact H2].
Qed.




(** Property X15. A successful dispatch leaves the breaker entry of the
    provider that answered closed, with no failures and no [openedAt]
    (whatever failures earlier attempts recorded), and that provider is
    one of the candidates. *)
Theorem dispatch_success_closes (cfg : RouterConfig) (book : PriceBook)
    (providers : list RegisteredProvider) (mt : string) (params : Params)
    (o : PolicyOptions) (hint : option string) (now : Z) (rv rj : nat -> Q)
    (handle : Z -> RegisteredProvider -> HandlerResult) (st : RouterState)
    (d : DispatchResult) :
  let res := useModelWithInfo cfg book providers mt params o hint now rv rj handle st in
  fst res = inl d ->
  circuit (snd res) !! key (res_provider d) mt = Some (mkEntry Closed 0 None) /\
  In (res_provider d) (map provider (candidatesOf providers hint)).
Proof.
  intros res H. subst res. unfold useModelWithInfo in H |- *.
  destruct (candidatesOf providers hint) as [|p0 ps0] eqn:Hcand; [discriminate |].
  rewrite <- Hcand in H |- *.
  destruct (select book (telemetry st) (circuitOptions cfg) now (circuit st) mt
              (candidatesOf providers hint) (rankOptions cfg st params o) rv rj)
    as [scored cb] eqn:Hsel.
  destruct scored as [|s0 ss0]; [discriminate |].
  destruct (attempt_loop cfg mt (s0 :: ss0) handle (map sp_provider (s0 :: ss0)) 0 None
              (mkState (telemetry st) cb (r_sessionSpent st))) as [[d'|[le' a]] st2] eqn:Hal;
    [| discriminate].
  cbn [fst] in H. injection H as <-. cbn [snd].
  destruct (attempt_loop_success _ _ _ _ _ _ _ _ _ _ Hal) as [H1 H2].
  split; [exact H1 |].
  apply in_map_iff in H2 as (rp & Hrp & Hin). apply in_map_iff.
  exists rp. split; [exact Hrp |].
  apply in_map_iff in Hin as (s & <- & Hs).
  assert (Hs' : In s (fst (select book (telemetry st) (circuitOptions cfg) now (circuit st) mt
                   (candidatesOf providers hint) (rankOptions cfg st params o) rv rj)))
    by (rewrite Hsel; exact Hs).
  destruct (RouterFacts.select_origin _ _ _ _ _ _ _ _ _ _ _ Hs') as (p & j & Hp & Hsc).
  rewrite (PolicyFacts.score_one_provider _ _ _ _ _ _ _ Hsc). exact Hp.
Qed.

Lemma dispatch_success_closes_witness :
  exists d,
    fst (useModelWithInfo RouterFacts.wcfg CostFacts.wbook
           [PolicyFacts.wpriced; PolicyFacts.wlocal] "TEXT_SMALL" RouterFacts.wreq
           PolicyFacts.noOptions None 0 (fun _ => 0%Q) (fun _ => 0%Q) RouterFacts.whandle
           RouterFacts.wst) = inl d /\
    circuit (snd (useModelWithInfo RouterFacts.wcfg CostFacts.wbook
           [PolicyFacts.wpriced; PolicyFacts.wlocal] "TEXT_SMALL" RouterFacts.wreq
           PolicyFacts.noOptions None 0 (fun _ => 0%Q) (fun _ => 0%Q) RouterFacts.whandle
           RouterFacts.wst)) !! key (res_provider d) "TEXT_SMALL" = Some (mkEntry Closed 0 None).
Proof.
  assert (E : exists d,
    fst (useModelWithInfo RouterFacts.wcfg CostFacts.wbook
           [PolicyFacts.wpriced; PolicyFacts.wlocal] "TEXT_SMALL" RouterFacts.wreq
           PolicyFacts.noOptions None 0 (fun _ => 0%Q) (fun _ => 0%Q) RouterFacts.whandle
           RouterFacts.wst) = inl d) by (eexists; vm_compute; reflexivity).
  destruct E as [d Hd]. exists d. split; [exact Hd |].
  exact (proj1 (dispatch_success_closes _ _ _ _ _ _ _ _ _ _ _ _ d Hd)).
Defined.

End RouterExtra.

(** ** Properties of [ModelRegistry] *)
Module RegistryExtra.

Import Policy Registry.
Open Scope Q_scope.

Definition prio_ge (a b : RegisteredProvider) : Prop := prio b <= prio a.

Lemma prio_ge_trans : Transitive prio_ge.
Proof. intros a b c Hab Hbc. unfold prio_ge in *. apply (Qle_trans _ (prio b)); assumption. Qed.

Lemma Qle_bool_false (a b : Q) : Qle_bool a b = false -> b < a.
Proof.
  intros H. apply Qnot_le_lt. intros Hle. apply Qle_bool_iff in Hle. congruence.
Qed.

Lemma insert_prio_perm (x : RegisteredProvider) (l : list RegisteredProvider) :
  insert_prio x l ≡ₚ x :: l.
Proof.
  induction l as [|y ys IH]; simpl; [reflexivity |].
  destruct (Qle_bool (prio y) (prio x)); [reflexivity |].
  rewrite IH. apply Permutation_swap.
Qed.

Lemma sort_prio_perm (l : list RegisteredProvider) : sort_prio l ≡ₚ l.
Proof.
  induction l as [|x xs IH]; simpl; [reflexivity |]. rewrite insert_prio_perm, IH. reflexivity.
Qed.

Lemma insert_prio_sorted (x : RegisteredProvider) (l : list RegisteredProvider) :
  Sorted prio_ge l -> Sorted prio_ge (insert_prio x l).
Proof.
  induction l as [|y ys IH]; intros Hs; simpl; [constructor; constructor |].
  destruct (Qle_bool (prio y) (prio x)) eqn:E.
  - constructor; [exact Hs |]. constructor. apply Qle_bool_iff, E.
  - apply Sorted_inv in Hs as [Hys Hhd].
    assert (Hyx : prio x <= prio y) by (apply Qlt_le_weak, Qle_bool_false, E).
    constructor; [exact (IH Hys) |].
    destruct ys as [|z zs]; simpl; [constructor; exact Hyx |].
    destruct (Qle_bool (prio z) (prio x)); constructor; [exact Hyx |].
    inversion Hhd; assumption.
Qed.

Lemma sort_prio_sorted (l : list RegisteredProvider) : Sorted prio_ge (sort_prio l).
Proof. induction l as [|x xs IH]; simpl; [constructor | apply insert_prio_sorted, IH]. Qed.

(** Inserting the head of a sorted list puts it first. *)
Lemma insert_prio_top (y : RegisteredProvider) (l : list RegisteredProvider) :
  Forall (prio_ge y) l -> insert_prio y l = y :: l.
Proof.
  destruct l as [|z zs]; intros H; simpl; [reflexivity |].
  inversion H as [|? ? Hz _]; subst. unfold prio_ge in Hz.
  apply Qle_bool_iff in Hz. rewrite Hz. reflexivity.
Qed.

(** The stable sort of a sorted list with one more element at its end puts
    that element after every entry of at least its priority. *)
Lemma sort_prio_snoc (x : RegisteredProvider) (l : list RegisteredProvider) :
  StronglySorted prio_ge l ->
  sort_prio (l ++ [x]) =
    List.filter (fun r => Qle_bool (prio x) (prio r)) l ++
    x :: List.filter (fun r => negb (Qle_bool (prio x) (prio r))) l.
Proof.
  induction l as [|y ys IH]; intros Hs; [reflexivity |].
  apply StronglySorted_inv in Hs as [Hys Hall].
  cbn [app sort_prio List.filter]. rewrite (IH Hys).
  destruct (Qle_bool (prio x) (prio y)) eqn:Exy; cbn [negb].
  - apply insert_prio_top. apply Forall_app. split.
    + apply Forall_forall. intros z Hz. apply list_elem_of_In, filter_In in Hz as [Hz _].
      rewrite Forall_forall in Hall. exact (Hall z (proj2 (list_elem_of_In _ _) Hz)).
    + constructor; [apply Qle_bool_iff, Exy |].
      apply Forall_forall. intros z Hz. apply list_elem_of_In, filter_In in Hz as [Hz _].
      rewrite Forall_forall in Hall. exact (Hall z (proj2 (list_elem_of_In _ _) Hz)).
  - apply Qle_bool_false in Exy.
    assert (Hlow : forall z, In z ys -> Qle_bool (prio x) (prio z) = false).
    { intros z Hz. rewrite Forall_forall in Hall.
      specialize (Hall z (proj2 (list_elem_of_In _ _) Hz)). unfold prio_ge in Hall.
      destruct (Qle_bool (prio x) (prio z)) eqn:E; [| reflexivity].
      apply Qle_bool_iff in E. exfalso. apply (Qlt_not_le _ _ Exy).
      apply (Qle_trans _ (prio z)); assumption. }
    assert (Hf : List.filter (fun r => Qle_bool (prio x) (prio r)) ys = []).
    { clear -Hlow. induction ys as [|a l IH]; simpl; [reflexivity |].
      rewrite (Hlow a (or_introl eq_refl)). apply IH. intros z Hz. apply Hlow. right. exact Hz. }
    assert (Hg : List.filter (fun r => negb (Qle_bool (prio x) (prio r))) ys = ys).
    { apply List.forallb_filter_id, forallb_forall. intros z Hz. rewrite (Hlow z Hz). reflexivity. }
    rewrite Hf, Hg. cbn [app insert_prio].
    replace (Qle_bool (prio x) (prio y)) with false
      by (symmetry; apply not_true_iff_false; intros E; apply Qle_bool_iff in E;
          exact (Qlt_not_le _ _ Exy E)).
    f_equal. apply insert_prio_top. exact Hall.
Qed.

Lemma getProviders_register (reg : Reg) (mt mt' : string) (hid : nat) (prov : string)
    (pr : option Q) (caps : option Capabilities) :
  getProviders (registerModel reg mt hid prov pr caps) mt' =
    if String.eqb mt mt'
    then sort_prio (getProviders reg mt ++ [mkProvider hid mt prov (Some (default 0 pr)) caps])
    else getProviders reg mt'.
Proof.
  unfold getProviders, registerModel. cbv zeta. destruct (String.eqb_spec mt mt') as [<-|Hne].
  - rewrite lookup_insert_eq. reflexivity.
  - rewrite lookup_insert_ne by exact Hne. reflexivity.
Qed.
Lemma registerAll_fold (cs : list RegCall) :
  forall reg, (forall mt, Sorted prio_ge (getProviders reg mt)) ->
  forall mt, Sorted prio_ge (getProviders (fold_left registerCall cs reg) mt) /\
    getProviders (fold_left registerCall cs reg) mt ≡ₚ
      getProviders reg mt ++
      map registrationOf (List.filter (fun c => String.eqb (rc_modelType c) mt) cs).
Proof.
  induction cs as [|c cs IH]; intros reg Hs mt.
  - cbn [fold_left List.filter map]. rewrite app_nil_r. split; [exact (Hs mt) | reflexivity].
  - cbn [fold_left List.filter].
    assert (Hs' : forall mt', Sorted prio_ge (getProviders (registerCall reg c) mt')).
    { intros mt'. unfold registerCall. rewrite getProviders_register.
      destruct (String.eqb (rc_modelType c) mt'); [apply sort_prio_sorted | apply Hs]. }
    destruct (IH (registerCall reg c) Hs' mt) as [H1 H2].
    split; [exact H1 |]. rewrite H2.
    unfold registerCall at 1. rewrite getProviders_register.
    destruct (String.eqb_spec (rc_modelType c) mt) as [<-|Hne].
    + rewrite sort_prio_perm, <- app_assoc. reflexivity.
    + reflexivity.
Qed.

(** Property X16. On a registry whose list for [modelType] is sorted by
    descending [priority ?? 0] (as every list the registry builds is, see
    X17), [registerModel] places the new registration after every existing
    one of at least its priority and before every one of lower priority,
    keeping the others in order: ties are served in registration order.
    The lists of the other model types are unchanged. *)
Theorem registerModel_position (reg : Reg) (mt : string) (hid : nat) (prov : string)
    (pr : option Q) (caps : option Capabilities) :
  Sorted prio_ge (getProviders reg mt) ->
  getProviders (registerModel reg mt hid prov pr caps) mt =
    List.filter (fun q => Qle_bool (default 0 pr) (prio q)) (getProviders reg mt) ++
    mkProvider hid mt prov (Some (default 0 pr)) caps ::
    List.filter (fun q => negb (Qle_bool (default 0 pr) (prio q))) (getProviders reg mt) /\
  forall mt', mt' <> mt ->
    getProviders (registerModel reg mt hid prov pr caps) mt' = getProviders reg mt'.
Proof.
  intros Hs. split.
  - rewrite getProviders_register, String.eqb_refl.
    exact (sort_prio_snoc (mkProvider hid mt prov (Some (default 0 pr)) caps) _
             (Sorted_StronglySorted prio_ge_trans Hs)).
  - intros mt' Hne. rewrite getProviders_register.
    destruct (String.eqb_spec mt mt') as [->|_]; [contradiction | reflexivity].
Qed.

Definition wreg : Reg :=
  registerModel (registerModel ∅ "TEXT_SMALL" 1 "openai-sim" (Some 5) None)
    "TEXT_SMALL" 2 "ollama-phi3" None None.

Lemma registerModel_position_witness :
  Sorted prio_ge (getProviders wreg "TEXT_SMALL") /\
  getProviders (registerModel wreg "TEXT_SMALL" 3 "anthropic-sim" (Some 5) None) "TEXT_SMALL" =
    List.filter (fun q => Qle_bool 5 (prio q)) (getProviders wreg "TEXT_SMALL") ++
    mkProvider 3 "TEXT_SMALL" "anthropic-sim" (Some 5) None ::
    List.filter (fun q => negb (Qle_bool 5 (prio q))) (getProviders wreg "TEXT_SMALL").
Proof.
  assert (Hs : Sorted prio_ge (getProviders wreg "TEXT_SMALL")).
  { vm_compute. repeat constructor; unfold prio_ge; vm_compute; discriminate. }
  split; [exact Hs |].
  exact (proj1 (registerModel_position wreg "TEXT_SMALL" 3 "anthropic-sim" (Some 5) None Hs)).
Defined.

(** Property X17. After any sequence of [registerModel] calls on an empty
    registry, [getProviders(modelType)] lists exactly the registrations
    made for [modelType] (each once, as a multiset), sorted by descending
    [priority ?? 0]; an unknown model type gives [[]]. *)
Theorem registerAll_sorted_perm (cs : list RegCall) (mt : string) :
  Sorted prio_ge (getProviders (registerAll cs) mt) /\
  getProviders (registerAll cs) mt ≡ₚ
    map registrationOf (List.filter (fun c => String.eqb (rc_modelType c) mt) cs).
Proof.
  unfold registerAll.
  assert (H0 : forall mt', Sorted prio_ge (getProviders ∅ mt'))
    by (intros mt'; unfold getProviders; rewrite lookup_empty; constructor).
  destruct (registerAll_fold cs ∅ H0 mt) as [H1 H2]. split; [exact H1 |].
  rewrite H2. unfold getProviders at 1. rewrite lookup_empty. reflexivity.
Qed.

End RegistryExtra.
